(** * ATS resume-screening assistant: the structured-completion extractor

    A shallow embedding of [generate_job_requirements]
    (src/job_requirements.py), of the request handlers of the matching and
    report pages (src/match.py, src/report.py) and of [initialize_agent]
    (src/resume_parser.py), together with the Python library operations
    they call: [str.replace], [str.strip], [re.search] on the two patterns
    of the source, [json.loads], and writing text to a UTF-8 file.

    Text is a list of Unicode code points, as a Python [str] is. *)

From Stdlib Require Import String Ascii.
From Stdlib Require Import List ZArith NArith Bool Lia Arith.
Import Corelib.Init.Datatypes.
Import ListNotations.

Set Implicit Arguments.
Set Warnings "-register-all".

(** ** Python strings *)

Module Py.

Definition char := N.
Definition str := list char.

(** A string literal of the source, as code points. *)
Definition u (s : String.string) : str :=
  map N_of_ascii (String.list_ascii_of_string s).

(** The same with ['] standing for the double quote, for JSON text. *)
Definition j (s : String.string) : str :=
  map (fun c => if N.eqb c 39 then 34%N else c) (u s).

Arguments u s%_string.
Arguments j s%_string.

Fixpoint str_eqb (a b : str) : bool :=
  match a, b with
  | [], [] => true
  | c :: a', d :: b' => N.eqb c d && str_eqb a' b'
  | _, _ => false
  end.

(** [s.startswith(p)] *)
Fixpoint startswith (p s : str) : bool :=
  match p, s with
  | [], _ => true
  | c :: p', d :: s' => N.eqb c d && startswith p' s'
  | _ :: _, [] => false
  end.

(** [s.find(p)]: the index of the first occurrence of [p] in [s]. *)
Fixpoint find (p s : str) : option nat :=
  if startswith p s then Some 0
  else match s with
       | [] => None
       | _ :: s' => option_map S (find p s')
       end.

(** [p in s] *)
Definition contains (p s : str) : bool :=
  match find p s with Some _ => true | None => false end.

(** [s.rfind(p)]: the index of the last occurrence of [p] in [s]. *)
Fixpoint rfind (p s : str) : option nat :=
  match s with
  | [] => if startswith p [] then Some 0 else None
  | _ :: s' =>
      match rfind p s' with
      | Some i => Some (S i)
      | None => if startswith p s then Some 0 else None
      end
  end.

(** [s.replace(old, new)] for a non-empty [old]: one pass from the left over
    non-overlapping occurrences.  [skip] counts the characters of a matched
    occurrence that are still to be dropped. *)
Fixpoint replace_from (old new : str) (skip : nat) (s : str) : str :=
  match s with
  | [] => []
  | c :: s' =>
      match skip with
      | S k => replace_from old new k s'
      | O =>
          if startswith old s
          then new ++ replace_from old new (length old - 1) s'
          else c :: replace_from old new 0 s'
      end
  end.

Definition replace (old new s : str) : str :=
  match old with
  | [] => new ++ flat_map (fun c => c :: new) s
  | _ :: _ => replace_from old new 0 s
  end.

(** [c.isspace()]: the code points CPython treats as whitespace. *)
Definition whitespace : list char :=
  [9; 10; 11; 12; 13; 28; 29; 30; 31; 32; 133; 160; 5760;
   8192; 8193; 8194; 8195; 8196; 8197; 8198; 8199; 8200; 8201; 8202;
   8232; 8233; 8239; 8287; 12288]%N.

Definition isspace (c : char) : bool := existsb (N.eqb c) whitespace.

Fixpoint lstrip (s : str) : str :=
  match s with
  | [] => []
  | c :: s' => if isspace c then lstrip s' else s
  end.

Definition rstrip (s : str) : str := rev (lstrip (rev s)).

(** [s.strip()] *)
Definition strip (s : str) : str := rstrip (lstrip s).

(** Decimal rendering of a natural number, as [str(n)] gives it. *)
Fixpoint digits_fuel (fuel n : nat) (acc : str) : str :=
  match fuel with
  | O => acc
  | S f =>
      let d := N.of_nat (n mod 10) in
      let acc' := (48 + d)%N :: acc in
      if n / 10 =? 0 then acc' else digits_fuel f (n / 10) acc'
  end.

Definition str_of_nat (n : nat) : str := digits_fuel (S n) n [].

Definition str_of_Z (z : Z) : str :=
  if (z <? 0)%Z then 45%N :: str_of_nat (Z.to_nat (- z))
  else str_of_nat (Z.to_nat z).

(** A surrogate code point.  A [str] may hold one on its own (the decoder
    of JSON builds one from a lone [\ud800] escape); UTF-8 cannot encode
    it. *)
Definition is_surrogate (c : char) : bool :=
  ((55296 <=? c) && (c <=? 57343))%N.

(** [s] can be encoded in UTF-8. *)
Definition encodable (s : str) : bool :=
  forallb (fun c => negb (is_surrogate c)) s.

Definition hex_digit (n : N) : char :=
  (if n <? 10 then 48 + n else 87 + n)%N.

(** The length of the run of surrogates at the head of [s]. *)
Fixpoint surrogate_run (s : str) : nat :=
  match s with
  | c :: s' => if is_surrogate c then S (surrogate_run s') else 0
  | [] => 0
  end.

(** [str(e)] of the [UnicodeEncodeError] that [s.encode("utf-8")] raises,
    if it raises one: it names the first run of surrogates.  [i] is the
    index of the head of [s] in the whole text. *)
Fixpoint encode_error_from (i : nat) (s : str) : option str :=
  match s with
  | [] => None
  | c :: s' =>
      if is_surrogate c
      then Some
             (match surrogate_run s' with
              | O =>
                  u "'utf-8' codec can't encode character '\u"
                  ++ [hex_digit (c / 4096); hex_digit ((c / 256) mod 16);
                      hex_digit ((c / 16) mod 16); hex_digit (c mod 16)]%N
                  ++ u "' in position " ++ str_of_nat i
              | S k =>
                  u "'utf-8' codec can't encode characters in position "
                  ++ str_of_nat i ++ u "-" ++ str_of_nat (i + S k)
              end ++ u ": surrogates not allowed")
      else encode_error_from (S i) s'
  end.

Definition encode_error (s : str) : option str := encode_error_from 0 s.

(** The characters of [s] up to its first line feed. *)
Fixpoint lstrip_line (s : str) : str :=
  match s with
  | [] => []
  | c :: s' => if N.eqb c 10 then [] else c :: lstrip_line s'
  end.

Definition tick : char := 96%N.

(** The length of the run of [c] at the head of [s]. *)
Fixpoint run_length (c : char) (s : str) : nat :=
  match s with
  | d :: s' => if N.eqb d c then S (run_length c s') else 0
  | [] => 0
  end.

(** [s.count(c)] for a single character. *)
Definition count_char (c : char) (s : str) : nat :=
  length (filter (N.eqb c) s).

(** The objects [json.loads] builds.  A [float] is kept as the text it was
    read from; a [dict] is its items in insertion order, keys unique. *)
Inductive value :=
| VNone
| VBool (b : bool)
| VInt (z : Z)
| VFloat (lexeme : str)
| VStr (s : str)
| VList (items : list value)
| VDict (items : list (str * value)).

(** [d[k] = v] *)
Fixpoint dict_set (d : list (str * value)) (k : str) (v : value)
  : list (str * value) :=
  match d with
  | [] => [(k, v)]
  | (k', v') :: d' =>
      if str_eqb k' k then (k', v) :: d' else (k', v') :: dict_set d' k v
  end.

(** [dict(pairs)] *)
Definition dict_of_pairs (ps : list (str * value)) : list (str * value) :=
  fold_left (fun d kv => dict_set d (fst kv) (snd kv)) ps [].

Fixpoint dict_lookup (d : list (str * value)) (k : str) : option value :=
  match d with
  | [] => None
  | (k', v) :: d' => if str_eqb k' k then Some v else dict_lookup d' k
  end.

(** [type(v).__name__] *)
Definition type_name (v : value) : str :=
  match v with
  | VNone => u "NoneType"
  | VBool _ => u "bool"
  | VInt _ => u "int"
  | VFloat _ => u "float"
  | VStr _ => u "str"
  | VList _ => u "list"
  | VDict _ => u "dict"
  end.

(** Exceptions, by the classes the handlers of the source tell apart, each
    with its [str(e)]. *)
Inductive exn :=
| RequestException (msg : str)   (* [requests.exceptions.RequestException] and subclasses *)
| JSONDecodeError (msg : str)    (* [json.JSONDecodeError] *)
| OtherException (msg : str).    (* any other [Exception] *)

Definition exn_str (e : exn) : str :=
  match e with
  | RequestException m | JSONDecodeError m | OtherException m => m
  end.

End Py.

Import Py.

(** ** Regular expressions

    The fragment of Python's [re] syntax the source uses, matched the way
    [re] matches: by backtracking, leftmost start first, a lazy star trying
    the shortest repetition first and a greedy star the longest.  Both
    patterns are compiled with [re.DOTALL], so [.] is any character. *)

Module Re.

Inductive node :=
| Lit (c : char)            (* a literal character *)
| DotStar (greedy : bool)   (* [.*] or [.*?] under DOTALL *)
| GroupOpen                 (* [(] of group 1 *)
| GroupClose.               (* [)] of group 1 *)

Definition pattern := list node.

Definition lits (s : str) : pattern := map Lit s.

(** The two stars over a continuation [k] that matches the rest of the
    pattern: the lazy one offers [k] the shortest repetition first, the
    greedy one the longest. *)
Fixpoint lazy_star (k : str -> option str) (s : str) : option str :=
  match k s with
  | Some g => Some g
  | None => match s with
            | [] => None
            | _ :: s' => lazy_star k s'
            end
  end.

Fixpoint greedy_star (k : str -> option str) (s : str) : option str :=
  match s with
  | [] => k s
  | _ :: s' =>
      match greedy_star k s' with
      | Some g => Some g
      | None => k s
      end
  end.

(** Match [p] at the head of [s].  [opened] is the input as it stood when
    group 1 opened and [grp] the text group 1 captured; the result is
    [m.group(1)]. *)
Fixpoint match_here (p : pattern) (s opened grp : str) : option str :=
  match p with
  | [] => Some grp
  | Lit c :: p' =>
      match s with
      | d :: s' => if N.eqb c d then match_here p' s' opened grp else None
      | [] => None
      end
  | GroupOpen :: p' => match_here p' s s grp
  | GroupClose :: p' =>
      match_here p' s opened (firstn (length opened - length s) opened)
  | DotStar false :: p' => lazy_star (fun t => match_here p' t opened grp) s
  | DotStar true :: p' => greedy_star (fun t => match_here p' t opened grp) s
  end.

(** [re.search(p, s)]: the match at the leftmost start position that has
    one; its group 1. *)
Fixpoint search (p : pattern) (s : str) : option str :=
  match match_here p s s [] with
  | Some g => Some g
  | None => match s with
            | [] => None
            | _ :: s' => search p s'
            end
  end.

End Re.

(** The two patterns of [generate_job_requirements]. *)

Definition fence_open : str := u "```json" ++ [10%N].
Definition fence_close : str := 10%N :: u "```".
Definition backticks : str := u "```".
Definition lbrace : char := 123%N.
Definition rbrace : char := 125%N.

(** [r'```json\n(.*?)\n```'] *)
Definition fenced_pattern : Re.pattern :=
  Re.lits fence_open ++ [Re.GroupOpen; Re.DotStar false; Re.GroupClose]
  ++ Re.lits fence_close.

(** [r'({.*})'] *)
Definition brace_pattern : Re.pattern :=
  [Re.GroupOpen; Re.Lit lbrace; Re.DotStar true; Re.Lit rbrace; Re.GroupClose].

Definition nl : str := [10%N].


(** ** A decoder for JSON text

    [json.loads] is library code.  The program is embedded over an arbitrary
    decoder; this one is the instance used to evaluate the program on
    concrete texts.  It reads the document left to right with an explicit
    stack of open containers, accepts what CPython 3.11's [json.loads]
    accepts (including [NaN], [Infinity] and [-Infinity]) and reports the
    same messages and positions.  Two limits of CPython are not modelled:
    the [RecursionError] on a deeply nested document and the [ValueError]
    on an integer of more than 4300 digits.  A [float] is kept as the text
    it was read from. *)

Module Json.

Inductive frame :=
| InList (acc : list value)                      (* items so far, last first *)
| InDict (acc : list (str * value))              (* pairs so far, last first *)
| InDictValue (acc : list (str * value)) (key : str).

Inductive numstate :=
| NMinus | NZero | NInt | NDot | NFrac | NExpMark | NExpSign | NExp.

Inductive strstate :=
| SPlain
| SEsc                                   (* after a backslash *)
| SUni (ds : list N)                     (* after [\u], hex digits so far *)
| SAfterUni                              (* just after a [\uXXXX] escape *)
| SHigh (h : N)                          (* after an escaped high surrogate *)
| SHighEsc (h : N)                       (* ... and a backslash *)
| SHighUni (h : N) (ds : list N).        (* ... and [\u] *)

Inductive literal := LNull | LTrue | LFalse | LNaN | LInfinity | LNegInfinity.

Definition literal_text (k : literal) : str :=
  match k with
  | LNull => u "null"
  | LTrue => u "true"
  | LFalse => u "false"
  | LNaN => u "NaN"
  | LInfinity => u "Infinity"
  | LNegInfinity => u "-Infinity"
  end.

Definition literal_value (k : literal) : value :=
  match k with
  | LNull => VNone
  | LTrue => VBool true
  | LFalse => VBool false
  | LNaN => VFloat (u "NaN")
  | LInfinity => VFloat (u "Infinity")
  | LNegInfinity => VFloat (u "-Infinity")
  end.

Inductive mode :=
| MValue
| MValueOrEnd
| MKeyOrEnd
| MKey
| MColon
| MCommaOrEnd
| MDone (v : value)
| MLiteral (k : literal) (seen : nat)              (* [seen] characters read *)
| MNumber (ns : numstate) (lexeme : str)          (* lexeme, last first *)
| MString (buf : str) (raw : nat) (ss : strstate). (* text, last first *)

(** A failure carries the message and how far back from the current
    character the reported position lies. *)
Inductive state :=
| Run (stack : list frame) (m : mode)
| Fail (msg : str) (back : nat).

Definition init : state := Run [] MValue.

(** The next input: a character, or [None] at the end of the document. *)
Definition is_chr (c : option char) (n : N) : bool :=
  match c with Some d => N.eqb d n | None => false end.

Definition is_ws (c : option char) : bool :=
  is_chr c 32 || is_chr c 9 || is_chr c 10 || is_chr c 13.

Definition is_digit (c : option char) : bool :=
  match c with Some d => (48 <=? d)%N && (d <=? 57)%N | None => false end.

Definition is_digit19 (c : option char) : bool :=
  match c with Some d => (49 <=? d)%N && (d <=? 57)%N | None => false end.

Definition hex_val (c : option char) : option N :=
  match c with
  | Some d =>
      if (48 <=? d)%N && (d <=? 57)%N then Some (d - 48)%N
      else if (65 <=? d)%N && (d <=? 70)%N then Some (d - 55)%N
      else if (97 <=? d)%N && (d <=? 102)%N then Some (d - 87)%N
      else None
  | None => None
  end.

Definition hex4 (ds : list N) : N :=
  fold_left (fun a d => (16 * a + d)%N) ds 0%N.

Definition is_high (x : N) : bool := (55296 <=? x)%N && (x <=? 56319)%N.
Definition is_low (x : N) : bool := (56320 <=? x)%N && (x <=? 57343)%N.

Definition pair_surrogates (h l : N) : N :=
  (65536 + N.lor (N.shiftl (h - 55296) 10) (l - 56320))%N.

Definition msg_value : str := u "Expecting value".
Definition msg_name : str := u "Expecting property name enclosed in double quotes".
Definition msg_colon : str := u "Expecting ':' delimiter".
Definition msg_comma : str := u "Expecting ',' delimiter".
Definition msg_extra : str := u "Extra data".
Definition msg_unterminated : str := u "Unterminated string starting at".
Definition msg_control : str := u "Invalid control character at".
Definition msg_escape : str := u "Invalid \escape".
Definition msg_uescape : str := u "Invalid \uXXXX escape".
Definition msg_bom : str := u "Unexpected UTF-8 BOM (decode using utf-8-sig)".

(** What follows a complete value that is not followed by what its
    context wants. *)
Definition msg_after_value (stack : list frame) : str :=
  match stack with [] => msg_extra | _ :: _ => msg_comma end.

(** A value is complete: hand it to the innermost open container. *)
Definition deliver (stack : list frame) (v : value) : state :=
  match stack with
  | [] => Run [] (MDone v)
  | InList acc :: st => Run (InList (v :: acc) :: st) MCommaOrEnd
  | InDictValue acc k :: st => Run (InDict ((k, v) :: acc) :: st) MCommaOrEnd
  | InDict acc :: st =>
      match v with
      | VStr k => Run (InDictValue acc k :: st) MColon
      | _ => Fail msg_name 0
      end
  end.

Fixpoint digits_value (ds : str) (acc : Z) : Z :=
  match ds with
  | [] => acc
  | d :: ds' => digits_value ds' (10 * acc + Z.of_N (d - 48))%Z
  end.

(** [int(lexeme)] *)
Definition int_of_lexeme (lx : str) : Z :=
  match lx with
  | 45%N :: ds => (- digits_value ds 0)%Z
  | _ => digits_value lx 0%Z
  end.

Definition number_value (ns : numstate) (lexeme : str) : value :=
  match ns with
  | NZero | NInt => VInt (int_of_lexeme (rev lexeme))
  | _ => VFloat (rev lexeme)
  end.

Definition start_literal (stack : list frame) (c : option char) : state :=
  if is_chr c 110 then Run stack (MLiteral LNull 1)
  else if is_chr c 116 then Run stack (MLiteral LTrue 1)
  else if is_chr c 102 then Run stack (MLiteral LFalse 1)
  else if is_chr c 78 then Run stack (MLiteral LNaN 1)
  else if is_chr c 73 then Run stack (MLiteral LInfinity 1)
  else Fail msg_value 0.

(** A value must start at [c]. *)
Definition start_value (stack : list frame) (c : option char) : state :=
  match c with
  | None => Fail msg_value 0
  | Some d =>
      if is_chr c 34 then Run stack (MString [] 0 SPlain)
      else if is_chr c 123 then Run (InDict [] :: stack) MKeyOrEnd
      else if is_chr c 91 then Run (InList [] :: stack) MValueOrEnd
      else if is_chr c 45 then Run stack (MNumber NMinus [d])
      else if is_chr c 48 then Run stack (MNumber NZero [d])
      else if is_digit19 c then Run stack (MNumber NInt [d])
      else start_literal stack c
  end.

(** Close the innermost container with [c]. *)
Definition close_list (stack : list frame) : state :=
  match stack with
  | InList acc :: st => deliver st (VList (rev acc))
  | _ => Fail msg_comma 0
  end.

Definition close_dict (stack : list frame) : state :=
  match stack with
  | InDict acc :: st => deliver st (VDict (dict_of_pairs (rev acc)))
  | _ => Fail msg_comma 0
  end.

(** Between tokens. *)
Definition step_plain (stack : list frame) (m : mode) (c : option char) : state :=
  match m with
  | MValue =>
      if is_ws c then Run stack MValue else start_value stack c
  | MValueOrEnd =>
      if is_ws c then Run stack MValueOrEnd
      else if is_chr c 93 then close_list stack
      else start_value stack c
  | MKeyOrEnd =>
      if is_ws c then Run stack MKeyOrEnd
      else if is_chr c 34 then Run stack (MString [] 0 SPlain)
      else if is_chr c 125 then close_dict stack
      else Fail msg_name 0
  | MKey =>
      if is_ws c then Run stack MKey
      else if is_chr c 34 then Run stack (MString [] 0 SPlain)
      else Fail msg_name 0
  | MColon =>
      if is_ws c then Run stack MColon
      else if is_chr c 58 then Run stack MValue
      else Fail msg_colon 0
  | MCommaOrEnd =>
      if is_ws c then Run stack MCommaOrEnd
      else match stack with
           | InList _ :: _ =>
               if is_chr c 44 then Run stack MValue
               else if is_chr c 93 then close_list stack
               else Fail msg_comma 0
           | InDict _ :: _ =>
               if is_chr c 44 then Run stack MKey
               else if is_chr c 125 then close_dict stack
               else Fail msg_comma 0
           | _ => Fail msg_comma 0
           end
  | MDone v =>
      match c with
      | None => Run stack (MDone v)
      | Some _ => if is_ws c then Run stack (MDone v) else Fail msg_extra 0
      end
  | _ => Fail msg_value 0
  end.

(** After a complete value, [c] is read again by what follows the value. *)
Definition then_plain (st : state) (c : option char) : state :=
  match st with
  | Run stack m => step_plain stack m c
  | Fail msg back => Fail msg back
  end.

Definition step_literal (stack : list frame) (k : literal) (seen : nat)
    (c : option char) : state :=
  match nth_error (literal_text k) seen with
  | Some r =>
      if is_chr c r
      then if S seen =? length (literal_text k)
           then deliver stack (literal_value k)
           else Run stack (MLiteral k (S seen))
      else Fail msg_value seen
  | None => Fail msg_value seen
  end.

Definition more (stack : list frame) (ns : numstate) (lexeme : str)
    (c : option char) : state :=
  match c with
  | Some d => Run stack (MNumber ns (d :: lexeme))
  | None => Fail msg_value 0
  end.

Definition step_number (stack : list frame) (ns : numstate) (lexeme : str)
    (c : option char) : state :=
  let finished := then_plain (deliver stack (number_value ns lexeme)) c in
  let is_e := is_chr c 101 || is_chr c 69 in
  match ns with
  | NMinus =>
      if is_chr c 48 then more stack NZero lexeme c
      else if is_digit19 c then more stack NInt lexeme c
      else if is_chr c 73
      then Run stack (MLiteral LNegInfinity 2)
      else Fail msg_value 1
  | NZero =>
      if is_chr c 46 then more stack NDot lexeme c
      else if is_e then more stack NExpMark lexeme c
      else finished
  | NInt =>
      if is_digit c then more stack NInt lexeme c
      else if is_chr c 46 then more stack NDot lexeme c
      else if is_e then more stack NExpMark lexeme c
      else finished
  | NDot =>
      if is_digit c then more stack NFrac lexeme c
      else Fail (msg_after_value stack) 1
  | NFrac =>
      if is_digit c then more stack NFrac lexeme c
      else if is_e then more stack NExpMark lexeme c
      else finished
  | NExpMark =>
      if is_digit c then more stack NExp lexeme c
      else if is_chr c 43 || is_chr c 45 then more stack NExpSign lexeme c
      else Fail (msg_after_value stack) 1
  | NExpSign =>
      if is_digit c then more stack NExp lexeme c
      else Fail (msg_after_value stack) 2
  | NExp =>
      if is_digit c then more stack NExp lexeme c
      else finished
  end.

(** One character of a string body, outside any escape. *)
Definition string_char (stack : list frame) (buf : str) (raw : nat)
    (c : option char) : state :=
  match c with
  | None => Fail msg_unterminated (S raw)
  | Some d =>
      if is_chr c 34 then deliver stack (VStr (rev buf))
      else if is_chr c 92 then Run stack (MString buf (S raw) SEsc)
      else if (d <? 32)%N then Fail msg_control 0
      else Run stack (MString (d :: buf) (S raw) SPlain)
  end.

(** An escaped code point [x] is complete.  The scanner wants a character
    after the four digits, or it reports the escape. *)
Definition escaped (stack : list frame) (buf : str) (raw : nat) (x : N) : state :=
  if is_high x then Run stack (MString buf (S raw) (SHigh x))
  else Run stack (MString (x :: buf) (S raw) SAfterUni).

(** The character after a backslash. *)
Definition escape_char (stack : list frame) (buf : str) (raw : nat)
    (c : option char) : state :=
  let put x := Run stack (MString (x :: buf) (S raw) SPlain) in
  match c with
  | None => Fail msg_unterminated (S raw)
  | Some d =>
      if is_chr c 34 || is_chr c 92 || is_chr c 47 then put d
      else if is_chr c 98 then put 8%N
      else if is_chr c 102 then put 12%N
      else if is_chr c 110 then put 10%N
      else if is_chr c 114 then put 13%N
      else if is_chr c 116 then put 9%N
      else if is_chr c 117 then Run stack (MString buf (S raw) (SUni []))
      else Fail msg_escape 1
  end.

Definition step_string (stack : list frame) (buf : str) (raw : nat)
    (ss : strstate) (c : option char) : state :=
  match ss with
  | SPlain => string_char stack buf raw c
  | SEsc => escape_char stack buf raw c
  | SUni ds =>
      match hex_val c with
      | Some d =>
          if length ds =? 3 then escaped stack buf raw (hex4 (ds ++ [d]))
          else Run stack (MString buf (S raw) (SUni (ds ++ [d])))
      | None => Fail msg_uescape (S (length ds))
      end
  | SAfterUni =>
      match c with
      | None => Fail msg_uescape 5
      | Some _ => string_char stack buf raw c
      end
  | SHigh h =>
      match c with
      | None => Fail msg_uescape 5
      | Some _ =>
          if is_chr c 92 then Run stack (MString buf (S raw) (SHighEsc h))
          else string_char stack (h :: buf) raw c
      end
  | SHighEsc h =>
      if is_chr c 117 then Run stack (MString buf (S raw) (SHighUni h []))
      else escape_char stack (h :: buf) raw c
  | SHighUni h ds =>
      match hex_val c with
      | Some d =>
          if length ds =? 3
          then let l := hex4 (ds ++ [d]) in
               if is_low l
               then Run stack (MString (pair_surrogates h l :: buf) (S raw)
                         SAfterUni)
               else escaped stack (h :: buf) raw l
          else Run stack (MString buf (S raw) (SHighUni h (ds ++ [d])))
      | None => Fail msg_uescape (S (length ds))
      end
  end.

Definition step (st : state) (c : option char) : state :=
  match st with
  | Fail msg back => Fail msg back
  | Run stack (MLiteral k seen) => step_literal stack k seen c
  | Run stack (MNumber ns lexeme) => step_number stack ns lexeme c
  | Run stack (MString buf raw ss) => step_string stack buf raw ss c
  | Run stack m => step_plain stack m c
  end.

Inductive outcome :=
| Decoded (v : value)
| Malformed (msg : str) (pos : nat).

(** Feed the document from index [i] on, then the end of input. *)
Fixpoint run (st : state) (doc : str) (i : nat) : outcome :=
  match doc with
  | [] =>
      match step st None with
      | Run [] (MDone v) => Decoded v
      | Run _ _ => Malformed msg_value i
      | Fail msg back => Malformed msg (i - back)
      end
  | c :: doc' =>
      match step st (Some c) with
      | Fail msg back => Malformed msg (i - back)
      | st' => run st' doc' (S i)
      end
  end.

(** [str(e)] of a [JSONDecodeError(msg, doc, pos)]. *)
Definition error_text (msg doc : str) (pos : nat) : str :=
  let before := firstn pos doc in
  let lineno := count_char 10%N before + 1 in
  let colno := length (lstrip_line (rev before)) + 1 in
  msg ++ u ": line " ++ str_of_nat lineno ++ u " column " ++ str_of_nat colno
  ++ u " (char " ++ str_of_nat pos ++ u ")".

(** [json.loads(doc)]: a byte order mark at the head of the text is
    refused before the decoder runs. *)
Definition loads (doc : str) : exn + value :=
  if startswith [65279%N] doc
  then inl (JSONDecodeError (error_text msg_bom doc 0))
  else
    match run init doc 0 with
    | Decoded v => inr v
    | Malformed msg pos => inl (JSONDecodeError (error_text msg doc pos))
    end.

End Json.


(** ** The world outside the program

    The generation endpoint, the screen and the file system.  A call of
    [requests.post] is answered by [server], which sees the requests made
    so far (a language model need not answer the same request twice the same
    way), and is recorded in [posts]. *)

Record Payload := {
  p_model : str;
  p_prompt : str;
  p_stream : bool;
  p_format : option str
}.

Record Request := { req_url : str; req_json : Payload }.

Record Response := {
  status_code : Z;
  reason : str;
  url : str;
  text : str
}.

(** Streamlit calls, in the order made. *)
Inductive widget :=
| st_error (msg : str)
| st_success (msg : str)
| st_spinner (msg : str)
| st_text_area (label : str) (v : value) (height : Z)
| st_download_button (label : str) (data : value) (file_name : str).

Record World := {
  posts : list Request;
  screen : list widget;
  files : list (str * str)
}.

(** Computations that may raise and that act on the world. *)
Definition M (A : Type) : Type := World -> (exn + A) * World.

Definition ret {A} (a : A) : M A := fun w => (inr a, w).

Definition raise {A} (e : exn) : M A := fun w => (inl e, w).

Definition bind {A B} (m : M A) (k : A -> M B) : M B :=
  fun w => match m w with
           | (inr a, w') => k a w'
           | (inl e, w') => (inl e, w')
           end.

Definition lift {A} (r : exn + A) : M A := fun w => (r, w).

(** [try: body  except ... as e: handler e] with a handler for every
    exception. *)
Definition try_except {A} (body : M A) (handler : exn -> M A) : M A :=
  fun w => match body w with
           | (inr a, w') => (inr a, w')
           | (inl e, w') => handler e w'
           end.

Declare Scope py_scope.
Delimit Scope py_scope with py.
Notation "x <- m ;; k" := (bind m (fun x => k))
  (at level 61, m at next level, right associativity) : py_scope.
Notation "m ;;; k" := (bind m (fun _ => k))
  (at level 61, right associativity) : py_scope.

(** The texts a widget holds. *)
Definition widget_texts (w : widget) : list str :=
  match w with
  | st_error msg | st_success msg | st_spinner msg => [msg]
  | st_text_area label (VStr t) _ => [label; t]
  | st_text_area label _ _ => [label]
  | st_download_button label (VStr t) file_name => [label; t; file_name]
  | st_download_button label _ file_name => [label; file_name]
  end.

(** A Streamlit call.  The texts of a widget travel in UTF-8: the call
    raises [UnicodeEncodeError] on the first of them that cannot be
    encoded, and nothing is shown. *)
Definition show (w : widget) : M unit :=
  match List.find (fun t => negb (encodable t)) (widget_texts w) with
  | Some t =>
      raise (OtherException
               (match encode_error t with Some m => m | None => [] end))
  | None =>
      fun s => (inr tt, {| posts := posts s; screen := screen s ++ [w];
                           files := files s |})
  end.

Fixpoint file_set (fs : list (str * str)) (name data : str) : list (str * str) :=
  match fs with
  | [] => [(name, data)]
  | (n, d) :: fs' =>
      if str_eqb n name then (n, data) :: fs' else (n, d) :: file_set fs' name data
  end.

Fixpoint file_get (fs : list (str * str)) (name : str) : option str :=
  match fs with
  | [] => None
  | (n, d) :: fs' => if str_eqb n name then Some d else file_get fs' name
  end.

(** [open(name, "w")]: the file exists and is empty. *)
Definition open_w (name : str) : M unit :=
  fun s => (inr tt, {| posts := posts s; screen := screen s;
                       files := file_set (files s) name [] |}).

(** [f.write(v)] on a text file opened with [encoding="utf-8"].  Only a
    [str] can be written ([TypeError] otherwise), and only one that UTF-8
    can encode: the text is encoded as a whole before anything reaches the
    file, so a text with a surrogate raises [UnicodeEncodeError] and leaves
    the file as it was. *)
Definition write (name : str) (v : value) : M unit :=
  match v with
  | VStr data =>
      match encode_error data with
      | Some m => raise (OtherException m)
      | None =>
          fun s =>
            let old := match file_get (files s) name with
                       | Some d => d
                       | None => []
                       end in
            (inr tt, {| posts := posts s; screen := screen s;
                        files := file_set (files s) name (old ++ data) |})
      end
  | VNone => raise (OtherException (u "write() argument must be str, not None"))
  | _ => raise (OtherException
                  (u "write() argument must be str, not " ++ type_name v))
  end.

(** [response.raise_for_status()] *)
Definition raise_for_status (r : Response) : exn + unit :=
  let code := status_code r in
  if ((400 <=? code) && (code <? 500))%Z
  then inl (RequestException
              (str_of_Z code ++ u " Client Error: " ++ reason r
               ++ u " for url: " ++ url r))
  else if ((500 <=? code) && (code <? 600))%Z
  then inl (RequestException
              (str_of_Z code ++ u " Server Error: " ++ reason r
               ++ u " for url: " ++ url r))
  else inr tt.

(** [v.get(k, default)] *)
Definition get_method (v : value) (k : str) (default : value) : exn + value :=
  match v with
  | VDict d => inr (match dict_lookup d k with Some x => x | None => default end)
  | _ => inl (OtherException
                (u "'" ++ type_name v ++ u "' object has no attribute 'get'"))
  end.

(** [v[k]] for a [str] key *)
Definition subscript (v : value) (k : str) : exn + value :=
  match v with
  | VDict d =>
      match dict_lookup d k with
      | Some x => inr x
      | None => inl (OtherException (u "'" ++ k ++ u "'"))
      end
  | VList _ =>
      inl (OtherException (u "list indices must be integers or slices, not str"))
  | VStr _ =>
      inl (OtherException (u "string indices must be integers, not 'str'"))
  | _ => inl (OtherException
                (u "'" ++ type_name v ++ u "' object is not subscriptable"))
  end.

(** [v.strip()] *)
Definition strip_method (v : value) : exn + value :=
  match v with
  | VStr s => inr (VStr (strip s))
  | _ => inl (OtherException
                (u "'" ++ type_name v ++ u "' object has no attribute 'strip'"))
  end.

(** [bool(s)] of a [str] *)
Definition truthy (s : str) : bool :=
  match s with [] => false | _ :: _ => true end.

(** The decoder behind [json.loads], and the endpoint: what [requests.post]
    returns or raises, given the requests made before. *)
Definition Decoder := str -> exn + value.
Definition Server := list Request -> Request -> exn + Response.

Local Open Scope py_scope.

(** [requests.post(url, json=payload)] *)
Definition requests_post (server : Server) (url : str) (payload : Payload)
  : M Response :=
  fun w =>
    let req := {| req_url := url; req_json := payload |} in
    (server (posts w) req,
     {| posts := posts w ++ [req]; screen := screen w; files := files w |}).

(** [response.json()]: a body that does not decode raises
    [requests.exceptions.JSONDecodeError], a [RequestException]. *)
Definition response_json (json_loads : Decoder) (r : Response) : exn + value :=
  match json_loads (text r) with
  | inl (JSONDecodeError m) => inl (RequestException m)
  | other => other
  end.

Module JobRequirements.
Section WithWorld.

Variable json_loads : Decoder.
Variable server : Server.

Definition endpoint : str := u "http://localhost:11434/api/generate".

Definition prompt (job_title : str) : str :=
  u "    -Goal-  " ++ nl ++
  u "            You are a job description parser. Your task is" ++
  u " to extract and structure the requirements from a job desc" ++
  u "ription." ++ nl ++
  u "            Given a job description for a " ++ job_title ++
  u " position, extract and structure the requirements into the" ++
  u " following JSON format with weights (0-1) and penalties.  " ++ nl ++
  u "            -Output Requirements-  " ++ nl ++
  u "            1. **Job Type**: Use the provided `" ++ job_title ++
  u "`.  " ++ nl ++
  u "            2. **Categories**: Organize requirements into:" ++ u "  " ++
  nl ++
  u "            - `Core skills` (critical for the role)  " ++ nl ++
  u "            - `Technical skills` (tools/frameworks)  " ++ nl ++
  u "            - `Experience requirements` (years/projects)  " ++ nl ++
  u "            - `Education requirements` (degrees/certificat" ++
  u "ions)  " ++ nl ++
  u "            - `Soft skills` (communication, teamwork)  " ++ nl ++
  u "            3. **Weights**: Assign each item a weight betw" ++
  u "een 0 (least important) and 1 (most important).  " ++ nl ++
  u "            4. **Penalties**: Define penalties for missing" ++
  u " requirements (e.g., `missing_core_skills: 20`). " ++ nl ++
  nl ++
  u "            -Important Instructions-" ++ nl ++
  u "            - Be COMPREHENSIVE: Include ALL possible skill" ++
  u "s and keywords that might appear on resumes for this role" ++ nl ++
  u "            - For technical roles, list specific technolog" ++
  u "ies, frameworks, and tools (e.g., for AI Engineer, include" ++
  u " TensorFlow, PyTorch, Keras, scikit-learn, etc.)" ++ nl ++
  u "            - For all roles, include industry-specific ter" ++
  u "minology and certifications" ++ nl ++
  u "            - Create an IDEAL requirements profile that ca" ++
  u "n be used as a benchmark for evaluating candidate resumes" ++ nl ++
  u "            - Include at least 8-10 items in each category" ++
  u " whenever relevant" ++ nl ++
  u "            - Assign realistic weights that reflect actual" ++
  u " industry priorities for this role" ++ nl ++
  u "            - Make penalties proportional to the importanc" ++
  u "e of each category" ++ nl ++
  nl ++
  u "            Output must follow this exact format:" ++ nl ++
  u "            ```json" ++ nl ++
  u "            {" ++ nl ++
  j "            'job_type': '" ++ job_title ++ j "'," ++ nl ++
  j "            'importance_weights': {" ++ nl ++
  j "                'Core skills': [" ++ nl ++
  u "                {" ++ nl ++
  j "                    'skill': '<exact_skill_name>'," ++ nl ++
  j "                    'weight': <0.0-1.0>" ++ nl ++
  u "                }" ++ nl ++
  u "                ]," ++ nl ++
  j "                'Technical skills': [" ++ nl ++
  u "                {" ++ nl ++
  j "                    'skill': '<exact_skill_name>'," ++ nl ++
  j "                    'weight': <0.0-1.0>" ++ nl ++
  u "                }" ++ nl ++
  u "                ]," ++ nl ++
  j "                'Experience requirements': [" ++ nl ++
  u "                {" ++ nl ++
  j "                    'requirement': '<exact_experience>'," ++ nl ++
  j "                    'weight': <0.0-1.0>" ++ nl ++
  u "                }" ++ nl ++
  u "                ]," ++ nl ++
  j "                'Education requirements': [" ++ nl ++
  u "                {" ++ nl ++
  j "                    'requirement': '<exact_education>'," ++ nl ++
  j "                    'weight': <0.0-1.0>" ++ nl ++
  u "                }" ++ nl ++
  u "                ]," ++ nl ++
  j "                'Soft skills': [" ++ nl ++
  u "                {" ++ nl ++
  j "                    'skill': '<exact_soft_skill>'," ++ nl ++
  j "                    'weight': <0.0-1.0>" ++ nl ++
  u "                }" ++ nl ++
  u "                ]" ++ nl ++
  u "            }," ++ nl ++
  j "            'penalties': {" ++ nl ++
  j "                'missing_core_skills': <points>," ++ nl ++
  j "                'missing_technical_skills': <points>," ++ nl ++
  j "                'missing_experience': <points>," ++ nl ++
  j "                'missing_education': <points>" ++ nl ++
  u "            }" ++ nl ++
  u "            }" ++ nl ++
  u "            ```" ++ nl ++
  u "            " ++ nl ++
  u "            Rules:" ++ nl ++
  u "            - Return ONLY the JSON block" ++ nl ++
  u "            - No explanations or comments" ++ nl ++
  u "            - Weights must be between 0.0 and 1.0" ++ nl ++
  u "            - Penalties must be integers" ++ nl ++
  u "            - Ensure valid JSON format with proper quotes " ++
  u "and commas" ++ nl ++
  u "            - This output will be used directly for resume" ++
  u " screening, so be thorough and precise".

Definition invalid_json (detail full_response : str) : str :=
  u "Error: Model returned invalid JSON. Details:" ++ nl ++ detail ++ nl
  ++ u "Raw response:" ++ nl ++ full_response.

Definition not_found (full_response : str) : str :=
  u "Error: Could not find JSON in response. Raw response:" ++ nl
  ++ full_response.

Definition connection_error (e : str) : str :=
  u "Error connecting to Ollama: " ++ e ++ nl
  ++ u "Make sure Ollama is running and the model is loaded.".

Definition unexpected_error (e : str) : str := u "Unexpected error: " ++ e.

(** Lines 102 to 105: the fenced block if there is one, else the widest
    brace span. *)
Definition json_match (full_response : str) : option str :=
  match Re.search fenced_pattern full_response with
  | None => Re.search brace_pattern full_response
  | Some group1 => Some group1
  end.

(** Line 110: [json_str.replace('```', '').strip()] *)
Definition clean (json_str : str) : str :=
  strip (replace backticks [] json_str).

(** Lines 111 to 115: decode the cleaned candidate. *)
Definition parse (json_str full_response : str) : exn + (value * option str) :=
  match json_loads json_str with
  | inr requirements => inr (requirements, None)
  | inl (JSONDecodeError e) => inr (VNone, Some (invalid_json e full_response))
  | inl e => inl e
  end.

(** Lines 101 to 117 of [generate_job_requirements], the extraction step:
    from the response text to the returned pair, or to an exception that
    the inner handler does not catch. *)
Definition extract_json (full_response : str) : exn + (value * option str) :=
  match json_match full_response with
  | Some group1 => parse (clean group1) full_response
  | None => inr (VNone, Some (not_found full_response))
  end.

(** [re.search] accepts only a [str]. *)
Definition search_subject (full_response : value) : exn + str :=
  match full_response with
  | VStr t => inr t
  | _ => inl (OtherException
                (u "expected string or bytes-like object, got '"
                 ++ type_name full_response ++ u "'"))
  end.

Definition payload (job_title model : str) : Payload :=
  {| p_model := model; p_prompt := prompt job_title;
     p_stream := false; p_format := Some (u "json") |}.

Definition generate_job_requirements (job_title model : str)
  : World -> (value * option str) * World :=
  let url := endpoint in
  let payload := payload job_title model in
  let body : M (value * option str) :=
    response <- requests_post server url payload ;;
    lift (raise_for_status response) ;;;
    json_response <- lift (response_json json_loads response) ;;
    full_response <- lift (get_method json_response (u "response") (VStr [])) ;;
    t <- lift (search_subject full_response) ;;
    lift (extract_json t) in
  fun w =>
    match body w with
    | (inr r, w') => (r, w')
    | (inl (RequestException e), w') => ((VNone, Some (connection_error e)), w')
    | (inl (JSONDecodeError e), w') => ((VNone, Some (unexpected_error e)), w')
    | (inl (OtherException e), w') => ((VNone, Some (unexpected_error e)), w')
    end.

(** Lines 93 to 117, the body of the outer [try] on its own: what it
    returns or raises. *)
Definition try_body (job_title model : str) : M (value * option str) :=
  response <- requests_post server endpoint (payload job_title model) ;;
  lift (raise_for_status response) ;;;
  json_response <- lift (response_json json_loads response) ;;
  full_response <- lift (get_method json_response (u "response") (VStr [])) ;;
  t <- lift (search_subject full_response) ;;
  lift (extract_json t).

(** The failure classes, told apart by the head of the message. *)
Definition is_connection_failure (msg : str) : bool :=
  startswith (u "Error connecting to Ollama: ") msg.
Definition is_payload_not_found (msg : str) : bool :=
  startswith (u "Error: Could not find JSON in response.") msg.
Definition is_malformed_payload (msg : str) : bool :=
  startswith (u "Error: Model returned invalid JSON.") msg.
Definition is_unexpected (msg : str) : bool :=
  startswith (u "Unexpected error: ") msg.

(** The four class tests on one message. *)
Definition classes (msg : str) : list bool :=
  [is_connection_failure msg; is_payload_not_found msg;
   is_malformed_payload msg; is_unexpected msg].

(** The one request a call makes. *)
Definition request (job_title model : str) : Request :=
  {| req_url := endpoint; req_json := payload job_title model |}.

(** The endpoint answers the call made in world [w] with the text [t] in
    the [response] field of a JSON object. *)
Definition model_output (w : World) (job_title model t : str) : Prop :=
  exists resp body,
    server (posts w) (request job_title model) = inr resp /\
    raise_for_status resp = inr tt /\
    response_json json_loads resp = inr body /\
    get_method body (u "response") (VStr []) = inr (VStr t).

End WithWorld.
End JobRequirements.

(** [read_file] of the matching and report pages; an uploaded file is given
    by its decoded text. *)
Definition read_file (file : option str) : str :=
  match file with
  | Some content => content
  | None => []
  end.

Module Match.
Section WithWorld.

Variable json_loads : Decoder.
Variable server : Server.

Definition prompt (resume_text job_text : str) : str :=
  nl ++
  nl ++
  u "You are an AI assistant designed to evaluate how well a ca" ++
  u "ndidate fits a specific job role based on their resume and" ++
  u " a structured job description. The job description include" ++
  u "s multiple requirement categories, each with an importance" ++
  u " weight. Your task is to extract claims about how well the" ++
  u " candidate meets each requirement and present them in a st" ++
  u "ructured JSON format." ++ nl ++
  nl ++
  u "## Instructions:" ++ nl ++
  nl ++
  u "1. Analyze the **Resume Data** and the **Job Description D" ++
  u "ata** provided below." ++ nl ++
  u "2. For each requirement (skill, education, experience, sof" ++
  u "t skill, etc.) in the job description, evaluate the degree" ++
  u " to which the candidate meets the requirement based on the" ++
  u " resume." ++ nl ++
  u "3. For each requirement, extract and return the following " ++
  u "fields:" ++ nl ++
  u "   - **requirement**: the original job requirement or skil" ++ u "l." ++
  nl ++
  j "   - **match**: choose one of the following: 'FULL', 'PARTIAL'" ++
  j ",'NEAR FULL' or 'NONE'." ++ nl ++
  u "   - **evidence**: a short explanation or quote from the r" ++
  u "esume that supports your evaluation." ++ nl ++
  j "   - **source**: 'RESUME'" ++
  j " if the evidence is explicitly present in the resume or '" ++
  j "Inference'" ++ nl ++
  u "   - **importance**: put the corresponding weight from the" ++
  u " job description file" ++ nl ++
  u "PLEASE MAKE SURE TO PUT ONLY THINGS THAT OCCUR IN THE RESU" ++
  u "ME DATA and Be very critical in your assessment." ++ nl ++
  u "4. Output the result in this JSON format:" ++ nl ++
  u "[" ++ nl ++
  u "  {" ++ nl ++
  j "    'requirement': " ++ [34%N; 34%N] ++ u "," ++ nl ++
  j "    'match': " ++ [34%N; 34%N] ++ u "," ++ nl ++
  j "    'evidence': " ++ [34%N; 34%N] ++ u "," ++ nl ++
  j "    'source': " ++ [34%N; 34%N] ++ u "," ++ nl ++
  j "    'importance': 0.0" ++ nl ++
  u "  }," ++ nl ++
  u "  ..." ++ nl ++
  u "]" ++ nl ++
  nl ++
  u "## Resume Data:" ++ nl ++
  resume_text ++ nl ++
  nl ++
  u "## Job Description Data:" ++ nl ++
  job_text ++ nl ++
  nl.

Definition output_file : str := u "llama_output.txt".

(** The request the page makes. *)
Definition request (resume_text job_text : str) : Request :=
  {| req_url := u "http://localhost:11434/api/generate";
     req_json := {| p_model := u "Llama3:latest";
                    p_prompt := prompt resume_text job_text;
                    p_stream := false; p_format := None |} |}.

(** The body of [if st.button("Analyze")]. *)
Definition analyze (resume_file job_file : option str) : M unit :=
  let resume_text := read_file resume_file in
  let job_text := read_file job_file in
  if negb (truthy resume_text) || negb (truthy job_text)
  then show (st_error (u "Please upload both files."))
  else
    show (st_spinner (u "Generating response using Llama3...")) ;;;
    response <- requests_post server (u "http://localhost:11434/api/generate")
                  {| p_model := u "Llama3:latest";
                     p_prompt := prompt resume_text job_text;
                     p_stream := false; p_format := None |} ;;
    if (status_code response =? 200)%Z
    then
      body <- lift (response_json json_loads response) ;;
      result <- lift (subscript body (u "response")) ;;
      show (st_success ([9989%N] ++ u " Extraction complete!")) ;;;
      show (st_text_area ([129504%N] ++ u " LLaMA 3 Output") result 400) ;;;
      open_w output_file ;;;
      write output_file result ;;;
      show (st_download_button ([128190%N] ++ u " Download Result") result
              output_file)
    else
      show (st_error ([10060%N] ++
        u " Error generating response. Is Ollama running with the LLa" ++
        u "MA 3 model?")).

End WithWorld.
End Match.

Module Report.
Section WithWorld.

Variable json_loads : Decoder.
Variable server : Server.

Definition prompt (matching_text resume_text job_text : str) : str :=
  nl ++
  nl ++
  nl ++
  nl ++
  nl ++
  u "You are a professional HR analyst and your ONLY task is to" ++
  u " output a structured evaluation in **valid JSON format onl" ++
  u "y**." ++ nl ++
  nl ++
  u "Follow this exact format:" ++ nl ++
  u "{" ++ nl ++
  j "  'title': 'string - Candidate name and job title'," ++ nl ++
  j "  'summary': 'string - Executive summary of the candidate" ++
  [8217%N] ++ j "s fit'," ++ nl ++
  j "  'match_score': float," ++ nl ++
  j "  'score_explanation': '" ++
  j "string - Explain the score, including penalties or mismatches'" ++
  u "," ++ nl ++
  j "  'findings': [" ++ nl ++
  u "    {" ++ nl ++
  j "      'summary': 'string - Skill or requirement'," ++ nl ++
  j "      'explanation': '" ++
  j "string - Why the candidate meets or lacks this requirement'," ++ nl ++
  j "      'score': integer (0" ++ [8211%N] ++ u "100)" ++ nl ++
  u "    }," ++ nl ++
  u "    ..." ++ nl ++
  u "  ]" ++ nl ++
  u "}" ++ nl ++
  nl ++
  u "Strict rules:" ++ nl ++
  u "- Output **only** valid JSON. Do NOT write explanations, m" ++
  u "arkdown, or any prose before or after." ++ nl ++
  u "- `match_score` must be between 0 and 1 (e.g., 0.72 means " ++
  u "72% match)." ++ nl ++
  u "- Give 5 to 10 findings with thoughtful scoring." ++ nl ++
  u "- Base your judgment on job description, resume, and the m" ++
  u "atch breakdown file." ++ nl ++
  nl ++
  u "--MATCHING FILE--" ++ nl ++
  matching_text ++ nl ++
  nl ++
  u "--RESUME--" ++ nl ++
  resume_text ++ nl ++
  nl ++
  u "--JOB DESCRIPTION--" ++ nl ++
  job_text ++ nl ++
  nl.

Definition output_file : str := u "llama_output.json".

(** The request the page makes. *)
Definition request (matching_text resume_text job_text : str) : Request :=
  {| req_url := u "http://localhost:11434/api/generate";
     req_json := {| p_model := u "llama3";
                    p_prompt := prompt matching_text resume_text job_text;
                    p_stream := false; p_format := None |} |}.

(** The body of [if st.button("Analyze")]. *)
Definition analyze (resume_file job_description llama_output : option str)
  : M unit :=
  let resume_text := read_file resume_file in
  let job_text := read_file job_description in
  let matching_text := read_file llama_output in
  if negb (truthy resume_text) || negb (truthy job_text)
  then show (st_error
               (u "Please upload both the resume and job description files."))
  else
    show (st_spinner (u "Generating response using LLaMA 3...")) ;;;
    response <- requests_post server (u "http://localhost:11434/api/generate")
                  {| p_model := u "llama3";
                     p_prompt := prompt matching_text resume_text job_text;
                     p_stream := false; p_format := None |} ;;
    if (status_code response =? 200)%Z
    then
      body <- lift (response_json json_loads response) ;;
      field <- lift (get_method body (u "response") (VStr [])) ;;
      result <- lift (strip_method field) ;;
      show (st_success ([9989%N] ++ u " Extraction complete!")) ;;;
      show (st_text_area ([129504%N] ++ u " LLaMA 3 Output (JSON)") result 400) ;;;
      open_w output_file ;;;
      write output_file result ;;;
      show (st_download_button ([128190%N] ++ u " Download Result") result
              output_file)
    else
      show (st_error ([10060%N] ++
        u " Error generating response. Is Ollama running with the LLa" ++
        u "MA 3 model?")).

End WithWorld.
End Report.


(** ** The resume page and its extraction service (src/resume_parser.py)

    [initialize_agent] talks to a managed service through three calls and
    through the [data_schema] property of the agent it gets back, whose
    setter has the service validate the schema.  The service is given by
    what each call returns or raises, seeing the calls made so far; every
    call is recorded. *)

Module ResumeParser.

(** What [data_schema] can hold: the [Resume] class of the source, or
    whatever form the service keeps a schema in. *)
Inductive schema :=
| Resume
| Stored (form : str).

Record Agent := {
  agent_id : str;
  agent_name : str;
  data_schema : schema
}.

(** [ApiError] with its [status_code], or any other exception. *)
Inductive svc_exn :=
| ApiError (status_code : Z)
| OtherError (msg : str).

Inductive svc_call :=
| GetAgent (name : str)
| DeleteAgent (id : str)
| CreateAgent (name : str) (s : schema)
| ValidateSchema (s : schema).

Record Service := {
  answer_get : list svc_call -> str -> svc_exn + option Agent;
  answer_delete : list svc_call -> str -> svc_exn + unit;
  answer_create : list svc_call -> str -> schema -> svc_exn + Agent;
  answer_validate : list svc_call -> schema -> svc_exn + schema
}.

(** Computations that call the service and may raise. *)
Definition S (A : Type) : Type := list svc_call -> (svc_exn + A) * list svc_call.

Definition sret {A} (a : A) : S A := fun l => (inr a, l).

Definition sraise {A} (e : svc_exn) : S A := fun l => (inl e, l).

Definition sbind {A B} (m : S A) (k : A -> S B) : S B :=
  fun l => match m l with
           | (inr a, l') => k a l'
           | (inl e, l') => (inl e, l')
           end.

Definition stry {A} (body : S A) (handler : svc_exn -> S A) : S A :=
  fun l => match body l with
           | (inr a, l') => (inr a, l')
           | (inl e, l') => handler e l'
           end.

Section WithService.

Variable llama_extract : Service.

(** [llama_extract.get_agent(name=name)]; [None] is any falsy answer. *)
Definition get_agent (name : str) : S (option Agent) :=
  fun l => (answer_get llama_extract l name, l ++ [GetAgent name]).

(** [llama_extract.delete_agent(id)] *)
Definition delete_agent (id : str) : S unit :=
  fun l => (answer_delete llama_extract l id, l ++ [DeleteAgent id]).

(** [llama_extract.create_agent(name=name, data_schema=s)] *)
Definition create_agent (name : str) (s : schema) : S Agent :=
  fun l => (answer_create llama_extract l name s, l ++ [CreateAgent name s]).

(** [agent.data_schema = s]: the setter sends [s] to the service for
    validation, which may raise, and keeps the form the service returns. *)
Definition set_data_schema (agent : Agent) (s : schema) : S Agent :=
  fun l =>
    (match answer_validate llama_extract l s with
     | inl e => inl e
     | inr validated =>
         inr {| agent_id := agent_id agent; agent_name := agent_name agent;
                data_schema := validated |}
     end,
     l ++ [ValidateSchema s]).

Definition agent_label : str := u "resume-screening".

(** [initialize_agent] *)
Definition initialize_agent : S Agent :=
  sbind
    (stry
       (sbind (get_agent agent_label) (fun existing_agent =>
          match existing_agent with
          | Some a => delete_agent (agent_id a)
          | None => sret tt
          end))
       (fun e =>
          match e with
          | ApiError code => if (code =? 404)%Z then sret tt else sraise e
          | OtherError _ => sraise e
          end))
    (fun _ =>
       sbind (create_agent agent_label Resume) (fun agent =>
         sbind (set_data_schema agent Resume) (fun agent =>
           sret agent))).

End WithService.

(** What [initialize_agent] does once the lookup and the deletion are
    behind it, lines 100 to 102: one creation, then the assignment of the
    schema to the agent created, which is returned. *)
Definition create_step (llama_extract : Service) (l : list svc_call)
  : (svc_exn + Agent) * list svc_call :=
  let l1 := l ++ [CreateAgent agent_label Resume] in
  match answer_create llama_extract l agent_label Resume with
  | inl e => (inl e, l1)
  | inr a =>
      match answer_validate llama_extract l1 Resume with
      | inl e => (inl e, l1 ++ [ValidateSchema Resume])
      | inr validated =>
          (inr {| agent_id := agent_id a; agent_name := agent_name a;
                  data_schema := validated |},
           l1 ++ [ValidateSchema Resume])
      end
  end.

(** A service for trying things out: it knows the agents in [known], finds
    none other (status 404), creates with the identifier [new] and keeps a
    schema under the name [resume]. *)
Definition simple_service (known : list Agent) (new : str) : Service :=
  {| answer_get := fun _ name =>
       match List.find (fun a => str_eqb (agent_name a) name) known with
       | Some a => inr (Some a)
       | None => inl (ApiError 404)
       end;
     answer_delete := fun _ _ => inr tt;
     answer_create := fun _ name s =>
       inr {| agent_id := new; agent_name := name; data_schema := Stored name |};
     answer_validate := fun _ s =>
       inr (match s with Resume => Stored (u "resume") | Stored f => Stored f end)
  |}.

End ResumeParser.

(** An endpoint that answers every request with status 200 and the body
    [body], and the world before any call. *)
Definition answering (body : str) : Server :=
  fun _ _ => inr {| status_code := 200; reason := u "OK";
                    url := u "http://localhost:11434/api/generate";
                    text := body |}.

Definition fresh : World := {| posts := []; screen := []; files := [] |}.

(** The world after one more request. *)
Definition posted (w : World) (req : Request) : World :=
  {| posts := posts w ++ [req]; screen := screen w; files := files w |}.

(** Lines 119 to 122: what the extraction step returns or raises becomes
    what the call returns. *)
Definition returned (r : exn + (value * option str)) : value * option str :=
  match r with
  | inr p => p
  | inl (RequestException e) => (VNone, Some (JobRequirements.connection_error e))
  | inl (JSONDecodeError e) => (VNone, Some (JobRequirements.unexpected_error e))
  | inl (OtherException e) => (VNone, Some (JobRequirements.unexpected_error e))
  end.

(** What a call returns, by the way it ends. *)
Inductive ending (json_loads : Decoder) (server : Server) (w : World)
    (job_title model : str) : value * option str -> Prop :=
| EndConnection e :
    ending json_loads server w job_title model
      (VNone, Some (JobRequirements.connection_error e))
| EndUnexpected e :
    ending json_loads server w job_title model
      (VNone, Some (JobRequirements.unexpected_error e))
| EndNotFound t :
    JobRequirements.model_output json_loads server w job_title model t ->
    ending json_loads server w job_title model (VNone, Some (JobRequirements.not_found t))
| EndInvalid t e :
    JobRequirements.model_output json_loads server w job_title model t ->
    ending json_loads server w job_title model
      (VNone, Some (JobRequirements.invalid_json e t))
| EndDecoded t v :
    JobRequirements.model_output json_loads server w job_title model t ->
    ending json_loads server w job_title model (v, None).

(** * Properties *)

Arguments N.eqb : simpl never.

(** ** Strings *)

Module PyFacts.

Lemma startswith_app (p r : str) : startswith p (p ++ r) = true.
Proof.
  induction p as [|c p IH]; simpl; [reflexivity|].
  now rewrite N.eqb_refl.
Qed.

Lemma startswith_split (p s : str) :
  startswith p s = true -> s = p ++ skipn (length p) s.
Proof.
  revert s; induction p as [|c p IH]; intros s H; simpl in *; [reflexivity|].
  destruct s as [|d s]; [discriminate|].
  apply andb_true_iff in H as [Hc Hp].
  apply N.eqb_eq in Hc; subst d.
  simpl. f_equal. now apply IH.
Qed.

Lemma startswith_length (p s : str) :
  startswith p s = true -> length p <= length s.
Proof.
  intros H. rewrite (startswith_split _ _ H).
  rewrite length_app. lia.
Qed.

(** A prefix test looks at no more than the length of the prefix. *)
Lemma startswith_app_long (p a b : str) :
  length p <= length a -> startswith p (a ++ b) = startswith p a.
Proof.
  revert a; induction p as [|c p IH]; intros a H; simpl in *; [reflexivity|].
  destruct a as [|d a]; simpl in *; [lia|].
  rewrite IH by lia. reflexivity.
Qed.

Lemma find_bound (p s : str) (i : nat) :
  find p s = Some i -> i <= length s.
Proof.
  revert i; induction s as [|c s IH]; intros i; simpl.
  - destruct (startswith p []); [|discriminate]. intros [= <-]. lia.
  - destruct (startswith p (c :: s)).
    + intros [= <-]. lia.
    + destruct (find p s) as [k|]; simpl; [|discriminate].
      intros [= <-]. specialize (IH k eq_refl). lia.
Qed.

(** [find] returns the start of an occurrence. *)
Lemma find_Some (p s : str) (i : nat) :
  find p s = Some i -> s = firstn i s ++ p ++ skipn (i + length p) s.
Proof.
  revert i; induction s as [|c s IH]; intros i; simpl.
  - destruct (startswith p []) eqn:E; [|discriminate].
    intros [= <-]. simpl. destruct p; [reflexivity|discriminate].
  - destruct (startswith p (c :: s)) eqn:E.
    + intros [= <-]. simpl. now apply startswith_split.
    + destruct (find p s) as [k|] eqn:F; simpl; [|discriminate].
      intros [= <-]. simpl. f_equal. now apply IH.
Qed.

(** Without an occurrence in [s] there is none in its suffixes. *)
Lemma find_None_tail (p : str) (c : char) (s : str) :
  find p (c :: s) = None -> find p s = None.
Proof.
  simpl. destruct (startswith p (c :: s)); [discriminate|].
  destruct (find p s); [discriminate|reflexivity].
Qed.

Lemma find_None_skipn (p s : str) (k : nat) :
  find p s = None -> find p (skipn k s) = None.
Proof.
  revert s; induction k as [|k IH]; intros s H; [exact H|].
  destruct s as [|c s]; [exact H|].
  simpl. apply IH. now apply find_None_tail with c.
Qed.

Lemma find_None_startswith (p s : str) :
  find p s = None -> startswith p s = false.
Proof.
  destruct s; simpl; destruct (startswith p _); congruence.
Qed.

Lemma find_startswith (p s : str) :
  startswith p s = true -> find p s = Some 0.
Proof. intros H. destruct s; simpl; now rewrite H. Qed.

(** [find] misses no occurrence. *)
Lemma find_None_app (p a b : str) : find p (a ++ p ++ b) <> None.
Proof.
  induction a as [|c a IH]; simpl.
  - rewrite find_startswith by apply startswith_app. discriminate.
  - destruct (startswith p (c :: a ++ p ++ b)); [discriminate|].
    destruct (find p (a ++ p ++ b)); [discriminate|contradiction].
Qed.

Lemma contains_false_find (p s : str) :
  contains p s = false -> find p s = None.
Proof. unfold contains. destruct (find p s); congruence. Qed.

Lemma contains_false_no_occurrence (p s : str) :
  contains p s = false -> forall a b, s <> a ++ p ++ b.
Proof.
  intros H a b ->. apply contains_false_find in H.
  now apply (find_None_app p a b).
Qed.

Lemma contains_false_tail (p : str) (c : char) (s : str) :
  contains p (c :: s) = false -> contains p s = false.
Proof.
  intros H. apply contains_false_find in H.
  unfold contains. now rewrite (find_None_tail _ _ _ H).
Qed.

(** The first occurrence of a single character. *)
Lemma find_char (c : char) (pre r : str) :
  ~ In c pre -> find [c] (pre ++ c :: r) = Some (length pre).
Proof.
  induction pre as [|d pre IH]; intros H; simpl.
  - now rewrite N.eqb_refl.
  - destruct (N.eqb_spec c d) as [->|_]; [destruct H; now left|].
    simpl. rewrite IH; [reflexivity|]. intros Hin. apply H. now right.
Qed.

Lemma find_char_None (c : char) (s : str) :
  ~ In c s -> find [c] s = None.
Proof.
  induction s as [|d s IH]; intros H; simpl; [reflexivity|].
  destruct (N.eqb_spec c d) as [->|_]; [destruct H; now left|].
  simpl. rewrite IH; [reflexivity|]. intros Hin. apply H. now right.
Qed.

Lemma find_char_In (c : char) (s : str) (i : nat) :
  find [c] s = Some i -> In c s.
Proof.
  intros H. apply find_Some in H. rewrite H.
  apply in_or_app. right. now left.
Qed.

(** The last occurrence of a single character. *)
Lemma rfind_char (c : char) (mid post : str) :
  ~ In c post -> rfind [c] (mid ++ c :: post) = Some (length mid).
Proof.
  intros H.
  assert (Hpost : rfind [c] post = None).
  { induction post as [|d post IH]; [reflexivity|]. simpl.
    rewrite IH by (intros Hin; apply H; now right).
    destruct (N.eqb_spec c d) as [->|_]; [destruct H; now left|reflexivity]. }
  induction mid as [|d mid IH]; simpl.
  - now rewrite Hpost, N.eqb_refl.
  - now rewrite IH.
Qed.

Lemma rfind_char_None (c : char) (s : str) :
  ~ In c s -> rfind [c] s = None.
Proof.
  induction s as [|d s IH]; intros H; [reflexivity|]. simpl.
  rewrite IH by (intros Hin; apply H; now right).
  destruct (N.eqb_spec c d) as [->|_]; [destruct H; now left|reflexivity].
Qed.

Lemma rfind_char_Some (c : char) (s : str) (i : nat) :
  rfind [c] s = Some i -> s = firstn i s ++ c :: skipn (S i) s.
Proof.
  revert i; induction s as [|d s IH]; intros i; simpl; [discriminate|].
  destruct (rfind [c] s) as [k|] eqn:E.
  - intros [= <-]. simpl. f_equal. now apply IH.
  - destruct (N.eqb_spec c d) as [->|_]; simpl; [|discriminate].
    now intros [= <-].
Qed.

Lemma rfind_char_split (c : char) (s : str) (i : nat) :
  rfind [c] s = Some i ->
  exists a t, s = a ++ c :: t /\ firstn (S i) s = a ++ [c].
Proof.
  revert i; induction s as [|d s IH]; intros i; cbn [rfind startswith];
    [discriminate|].
  destruct (rfind [c] s) as [k|] eqn:E.
  - intros [= <-]. destruct (IH k eq_refl) as (a & t & Hs & Hf).
    exists (d :: a), t. split.
    + cbn [app]. now f_equal.
    + change (firstn (S (S k)) (d :: s)) with (d :: firstn (S k) s).
      cbn [app]. now f_equal.
  - destruct (N.eqb_spec c d) as [->|]; cbn [andb]; [|discriminate].
    intros [= <-]. now exists [], s.
Qed.

Lemma rfind_None_skipn (c : char) (s : str) (k : nat) :
  rfind [c] s = None -> rfind [c] (skipn k s) = None.
Proof.
  revert s; induction k as [|k IH]; intros s H; [exact H|].
  destruct s as [|d s]; [exact H|].
  simpl. apply IH. simpl in H. now destruct (rfind [c] s).
Qed.

(** *** [replace] of the triple backtick *)

Lemma replace_from_skip (old new : str) (k : nat) (s : str) :
  replace_from old new k s = replace_from old new 0 (skipn k s).
Proof.
  revert k; induction s as [|c s IH]; intros [|k]; try reflexivity.
  simpl replace_from at 1. now rewrite IH.
Qed.

Lemma replace_ticks_hit (s : str) :
  startswith (u "```") s = true ->
  replace (u "```") [] s = replace (u "```") [] (skipn 3 s).
Proof.
  intros H. destruct s as [|c s]; [discriminate|].
  change (replace (u "```") [] (c :: s))
    with (if startswith (u "```") (c :: s)
          then [] ++ replace_from (u "```") [] 2 s
          else c :: replace_from (u "```") [] 0 s).
  rewrite H. simpl app. now rewrite replace_from_skip.
Qed.

Lemma replace_ticks_miss (c : char) (s : str) :
  startswith (u "```") (c :: s) = false ->
  replace (u "```") [] (c :: s) = c :: replace (u "```") [] s.
Proof.
  intros H.
  change (replace (u "```") [] (c :: s))
    with (if startswith (u "```") (c :: s)
          then [] ++ replace_from (u "```") [] 2 s
          else c :: replace_from (u "```") [] 0 s).
  now rewrite H.
Qed.

(** A text without a triple backtick is left as it is. *)
Lemma replace_ticks_id (s : str) :
  contains (u "```") s = false -> replace (u "```") [] s = s.
Proof.
  induction s as [|c s IH]; intros H; [reflexivity|].
  rewrite replace_ticks_miss.
  - f_equal. apply IH. now apply contains_false_tail with c.
  - now apply find_None_startswith, contains_false_find.
Qed.

Lemma startswith_ticks_run (s : str) :
  startswith (u "```") s = (3 <=? run_length tick s).
Proof.
  change (u "```") with [tick; tick; tick].
  destruct s as [|a [|b [|c s]]]; cbn [startswith run_length];
    rewrite ?(N.eqb_sym tick);
    repeat match goal with
           | |- context [N.eqb ?x tick] => destruct (N.eqb x tick)
           end; reflexivity.
Qed.

Lemma run_length_skip3 (s : str) :
  3 <= run_length tick s ->
  run_length tick (skipn 3 s) = run_length tick s - 3.
Proof.
  destruct s as [|a [|b [|c s]]]; cbn [skipn run_length];
    repeat match goal with
           | |- context [N.eqb ?x tick] => destruct (N.eqb x tick)
           end; lia.
Qed.

Lemma skipn3_shorter (s : str) :
  startswith (u "```") s = true -> length (skipn 3 s) < length s.
Proof.
  intros H. apply startswith_length in H. simpl in H.
  rewrite length_skipn. lia.
Qed.

(** A run of [k] backticks leaves [k mod 3] of them. *)
Lemma run_length_replace (s : str) :
  run_length tick (replace (u "```") [] s) = run_length tick s mod 3.
Proof.
  remember (length s) as n eqn:Hn.
  revert s Hn; induction n as [n IH] using lt_wf_ind; intros s ->.
  destruct (startswith (u "```") s) eqn:E.
  - rewrite replace_ticks_hit by exact E.
    rewrite (IH _ (skipn3_shorter _ E) _ eq_refl).
    rewrite startswith_ticks_run in E. apply Nat.leb_le in E.
    rewrite run_length_skip3 by exact E.
    replace (run_length tick s) with ((run_length tick s - 3) + 1 * 3) at 2 by lia.
    now rewrite Nat.Div0.mod_add.
  - destruct s as [|c s]; [reflexivity|].
    rewrite replace_ticks_miss by exact E.
    rewrite startswith_ticks_run in E. apply Nat.leb_gt in E.
    cbn [run_length] in *. destruct (N.eqb c tick).
    + rewrite (IH (length s) (Nat.lt_succ_diag_r _) s eq_refl).
      rewrite !Nat.mod_small; lia.
    + reflexivity.
Qed.

Lemma contains_cons_false (p : str) (c : char) (s : str) :
  startswith p (c :: s) = false -> contains p s = false ->
  contains p (c :: s) = false.
Proof.
  unfold contains. simpl. intros ->.
  destruct (find p s); [discriminate|reflexivity].
Qed.

(** After the replacement no triple backtick is left. *)
Lemma replace_ticks_none_left (s : str) :
  contains (u "```") (replace (u "```") [] s) = false.
Proof.
  remember (length s) as n eqn:Hn.
  revert s Hn; induction n as [n IH] using lt_wf_ind; intros s ->.
  destruct (startswith (u "```") s) eqn:E.
  - rewrite replace_ticks_hit by exact E.
    exact (IH _ (skipn3_shorter _ E) _ eq_refl).
  - destruct s as [|c s]; [reflexivity|].
    assert (R := run_length_replace (c :: s)).
    rewrite replace_ticks_miss in * by exact E.
    apply contains_cons_false.
    + rewrite startswith_ticks_run. apply Nat.leb_gt. rewrite R.
      apply Nat.mod_upper_bound. discriminate.
    + exact (IH (length s) (Nat.lt_succ_diag_r _) s eq_refl).
Qed.

(** The replacement deletes backticks only. *)
Lemma replace_ticks_keeps_others (s : str) :
  filter (fun c => negb (N.eqb c tick)) (replace (u "```") [] s)
  = filter (fun c => negb (N.eqb c tick)) s.
Proof.
  remember (length s) as n eqn:Hn.
  revert s Hn; induction n as [n IH] using lt_wf_ind; intros s ->.
  destruct (startswith (u "```") s) eqn:E.
  - rewrite replace_ticks_hit by exact E.
    rewrite (IH _ (skipn3_shorter _ E) _ eq_refl).
    rewrite (startswith_split _ _ E) at 2. reflexivity.
  - destruct s as [|c s]; [reflexivity|].
    rewrite replace_ticks_miss by exact E. cbn [filter].
    now rewrite (IH (length s) (Nat.lt_succ_diag_r _) s eq_refl).
Qed.

Lemma contains_false_app_r (p a b : str) :
  contains p (a ++ b) = false -> contains p b = false.
Proof.
  induction a as [|c a IH]; intros H; [exact H|].
  apply IH. now apply contains_false_tail with c.
Qed.

Lemma contains_false_app_l (p a b : str) :
  contains p (a ++ b) = false -> contains p a = false.
Proof.
  intros H. unfold contains. destruct (find p a) as [i|] eqn:E; [|reflexivity].
  apply find_Some in E. exfalso.
  apply (@contains_false_no_occurrence p (a ++ b) H (firstn i a)
           (skipn (i + length p) a ++ b)).
  rewrite E at 1. now rewrite <- !app_assoc.
Qed.

Lemma contains_true_occurrence (p s : str) :
  contains p s = true -> exists a b, s = a ++ p ++ b.
Proof.
  unfold contains. destruct (find p s) as [i|] eqn:E; [|discriminate].
  intros _. apply find_Some in E. eauto.
Qed.

(** *** [strip] *)

Lemma lstrip_app_single (a : str) (c : char) :
  lstrip (a ++ [c])
  = match lstrip a with
    | [] => if isspace c then [] else [c]
    | l => l ++ [c]
    end.
Proof.
  induction a as [|d a IH]; simpl; [reflexivity|].
  destruct (isspace d); [exact IH|reflexivity].
Qed.

Lemma rstrip_cons (c : char) (s : str) :
  rstrip (c :: s)
  = match rstrip s with
    | [] => if isspace c then [] else [c]
    | _ => c :: rstrip s
    end.
Proof.
  unfold rstrip. simpl rev. rewrite lstrip_app_single.
  destruct (lstrip (rev s)) as [|d l] eqn:E; simpl.
  - now destruct (isspace c).
  - rewrite rev_app_distr. simpl.
    destruct (rev l ++ [d]) eqn:E'; [|reflexivity].
    now destruct (rev l).
Qed.

Lemma lstrip_head (s : str) (c : char) (r : str) :
  lstrip s = c :: r -> isspace c = false.
Proof.
  induction s as [|d s IH]; simpl; [discriminate|].
  destruct (isspace d) eqn:E; [exact IH|]. now intros [= <- _].
Qed.

Lemma lstrip_idem (s : str) : lstrip (lstrip s) = lstrip s.
Proof.
  destruct (lstrip s) as [|c r] eqn:E; [reflexivity|].
  simpl. now rewrite (lstrip_head _ E).
Qed.

Lemma rstrip_idem (s : str) : rstrip (rstrip s) = rstrip s.
Proof.
  unfold rstrip. now rewrite rev_involutive, lstrip_idem.
Qed.

(** Removing trailing whitespace leaves the head in place. *)
Lemma lstrip_rstrip (s : str) : lstrip s = s -> lstrip (rstrip s) = rstrip s.
Proof.
  destruct s as [|c s]; [reflexivity|]. intros H.
  assert (Hc : isspace c = false) by now apply (lstrip_head _ H).
  rewrite rstrip_cons.
  destruct (rstrip s); rewrite ?Hc; cbn [lstrip]; now rewrite Hc.
Qed.

Lemma lstrip_suffix (s : str) : exists a, s = a ++ lstrip s.
Proof.
  induction s as [|c s [a IH]]; [now exists []|].
  cbn [lstrip]. destruct (isspace c); [|now exists []].
  exists (c :: a). cbn [app]. now f_equal.
Qed.

Lemma rstrip_prefix (s : str) : exists b, s = rstrip s ++ b.
Proof.
  unfold rstrip. destruct (lstrip_suffix (rev s)) as [a H].
  exists (rev a). rewrite <- rev_app_distr, <- H. now rewrite rev_involutive.
Qed.

(** Stripping brings in no occurrence of anything. *)
Lemma contains_false_strip (p s : str) :
  contains p s = false -> contains p (strip s) = false.
Proof.
  intros H. unfold strip.
  destruct (lstrip_suffix s) as [a Ha].
  destruct (rstrip_prefix (lstrip s)) as [b Hb].
  rewrite Ha in H. apply contains_false_app_r in H.
  rewrite Hb in H. now apply contains_false_app_l in H.
Qed.

(** Whitespace only. *)
Lemma forallb_isspace_In (s : str) (c : char) :
  forallb isspace s = true -> In c s -> isspace c = true.
Proof. intros H. now apply forallb_forall. Qed.

(** A stripped text has no whitespace at either end. *)
Lemma strip_ends (s : str) :
  lstrip (strip s) = strip s /\ rstrip (strip s) = strip s.
Proof.
  unfold strip. split.
  - apply lstrip_rstrip, lstrip_idem.
  - apply rstrip_idem.
Qed.

End PyFacts.

(** ** The two searches of the source *)

Module ReFacts.

Import PyFacts.

Lemma match_here_lits (a : str) (p : Re.pattern) (s o g : str) :
  Re.match_here (Re.lits a ++ p) s o g
  = if startswith a s then Re.match_here p (skipn (length a) s) o g else None.
Proof.
  revert s; induction a as [|c a IH]; intros s; [reflexivity|].
  destruct s as [|d s]; [reflexivity|].
  cbn [Re.lits map app Re.match_here startswith length skipn].
  destruct (N.eqb c d); [apply IH|reflexivity].
Qed.

(** The lazy star before the closing fence stops at the first closing
    fence. *)
Lemma lazy_star_close (c o g pre t : str) :
  o = pre ++ t ->
  Re.lazy_star (fun t => Re.match_here (Re.GroupClose :: Re.lits c) t o g) t
  = match find c t with
    | Some k => Some (firstn (length pre + k) o)
    | None => None
    end.
Proof.
  assert (K : forall t pre, o = pre ++ t ->
            Re.match_here (Re.GroupClose :: Re.lits c) t o g
            = if startswith c t then Some (firstn (length pre) o) else None).
  { intros t' pre' ->. cbn [Re.match_here].
    rewrite <- (app_nil_r (Re.lits c)), match_here_lits.
    rewrite length_app, Nat.add_sub. reflexivity. }
  revert pre; induction t as [|x t IH]; intros pre Ho; cbn [Re.lazy_star find];
    rewrite (K _ _ Ho).
  - destruct (startswith c []); [now rewrite Nat.add_0_r|reflexivity].
  - destruct (startswith c (x :: t)); [now rewrite Nat.add_0_r|].
    rewrite (IH (pre ++ [x])) by now rewrite <- app_assoc.
    destruct (find c t) as [k|]; [|reflexivity]. cbn [option_map].
    rewrite length_app. cbn [length]. do 2 f_equal. lia.
Qed.

Lemma match_fenced (s : str) :
  Re.match_here fenced_pattern s s []
  = if startswith fence_open s
    then let r := skipn (length fence_open) s in
         match find fence_close r with
         | Some k => Some (firstn k r)
         | None => None
         end
    else None.
Proof.
  unfold fenced_pattern. rewrite match_here_lits.
  destruct (startswith fence_open s); [|reflexivity].
  cbn [app Re.match_here].
  exact (lazy_star_close fence_close [] [] _ eq_refl).
Qed.

(** [re.search] with the fenced pattern: the text between the first opening
    fence and the first closing fence after it. *)
Lemma search_fenced_find (s : str) :
  Re.search fenced_pattern s
  = match find fence_open s with
    | None => None
    | Some i =>
        let r := skipn (i + length fence_open) s in
        match find fence_close r with
        | Some k => Some (firstn k r)
        | None => None
        end
    end.
Proof.
  induction s as [|c s IH].
  - reflexivity.
  - cbn [Re.search find]. rewrite match_fenced.
    destruct (startswith fence_open (c :: s)) eqn:E.
    + cbn zeta. rewrite Nat.add_0_l.
      destruct (find fence_close (skipn (length fence_open) (c :: s))) eqn:F;
        [reflexivity|].
      rewrite IH. destruct (find fence_open s) as [i|]; [|reflexivity].
      cbn zeta.
      replace (skipn (i + length fence_open) s)
        with (skipn (S i) (skipn (length fence_open) (c :: s))).
      * now rewrite find_None_skipn.
      * rewrite skipn_skipn. reflexivity.
    + rewrite IH. destruct (find fence_open s) as [i|]; reflexivity.
Qed.

(** The greedy star before the closing brace stops at the last closing
    brace. *)
Lemma greedy_star_rbrace (o pre t : str) :
  o = pre ++ t ->
  Re.greedy_star
    (fun t => Re.match_here [Re.Lit rbrace; Re.GroupClose] t o []) t
  = match rfind [rbrace] t with
    | Some k => Some (firstn (length pre + k + 1) o)
    | None => None
    end.
Proof.
  revert pre; induction t as [|x t IH]; intros pre Ho;
    cbn [Re.greedy_star rfind startswith]; [reflexivity|].
  rewrite (IH (pre ++ [x])) by now rewrite <- app_assoc.
  destruct (rfind [rbrace] t) as [k|].
  - rewrite length_app. cbn [length]. do 2 f_equal. lia.
  - cbn [Re.match_here]. destruct (N.eqb rbrace x); [|reflexivity].
    cbn [andb]. subst o. rewrite length_app. cbn [length].
    do 2 f_equal. lia.
Qed.

Lemma match_brace (s : str) :
  Re.match_here brace_pattern s s []
  = match s with
    | d :: s' =>
        if N.eqb lbrace d
        then Re.greedy_star
               (fun t => Re.match_here [Re.Lit rbrace; Re.GroupClose] t s []) s'
        else None
    | [] => None
    end.
Proof. destruct s; reflexivity. Qed.

(** [re.search] with the brace pattern: from the first opening brace to the
    last closing brace after it. *)
Lemma search_brace_find (s : str) :
  Re.search brace_pattern s
  = match find [lbrace] s with
    | None => None
    | Some i =>
        let r := skipn (S i) s in
        match rfind [rbrace] r with
        | Some k => Some (lbrace :: firstn (S k) r)
        | None => None
        end
    end.
Proof.
  induction s as [|c s IH]; [reflexivity|].
  cbn [Re.search find startswith]. rewrite match_brace.
  destruct (N.eqb_spec lbrace c) as [<-|Hc]; cbn [andb].
  - rewrite (@greedy_star_rbrace (lbrace :: s) [lbrace] s eq_refl).
    cbn zeta. cbn [skipn].
    destruct (rfind [rbrace] s) as [k|] eqn:F.
    + cbn [length]. replace (1 + k + 1) with (S (S k)) by lia. reflexivity.
    + rewrite IH.
      destruct (find [lbrace] s) as [i|]; [|reflexivity].
      cbn zeta. now rewrite rfind_None_skipn.
  - rewrite IH.
    destruct (find [lbrace] s) as [i|]; reflexivity.
Qed.

(** Decide a prefix test on a text whose head is a few unknown characters
    followed by known ones. *)
Ltac prefix_test :=
  cbn [startswith app];
  repeat match goal with
         | |- context [N.eqb ?x ?y] =>
             is_var y; destruct (N.eqb_spec x y); [subst y|]; cbn [andb]
         end;
  try reflexivity; try discriminate.

(** An opening fence does not begin inside the text before another: the
    fence has no proper suffix that is also a prefix of it. *)
Lemma fence_open_no_straddle (a r : str) :
  a <> [] -> startswith fence_open a = false ->
  startswith fence_open (a ++ fence_open ++ r) = false.
Proof.
  intros Ha H.
  destruct (le_lt_dec (length fence_open) (length a)) as [L|L].
  - now rewrite startswith_app_long.
  - clear H. change (length fence_open) with 8 in L.
    let p := eval vm_compute in fence_open in change fence_open with p.
    do 8 (destruct a as [|? a]; [try contradiction; prefix_test|]).
    cbn [length] in L. lia.
Qed.

Lemma fence_close_no_straddle (a r : str) :
  a <> [] -> startswith fence_close a = false ->
  startswith fence_close (a ++ fence_close ++ r) = false.
Proof.
  intros Ha H.
  destruct (le_lt_dec (length fence_close) (length a)) as [L|L].
  - now rewrite startswith_app_long.
  - clear H. change (length fence_close) with 4 in L.
    let p := eval vm_compute in fence_close in change fence_close with p.
    do 4 (destruct a as [|? a]; [try contradiction; prefix_test|]).
    cbn [length] in L. lia.
Qed.

(** The first occurrence of a fence after a text that has none. *)
Lemma find_fence_open (a r : str) :
  contains fence_open a = false ->
  find fence_open (a ++ fence_open ++ r) = Some (length a).
Proof.
  induction a as [|c a IH]; intros H.
  - cbn [app length]. apply find_startswith, startswith_app.
  - cbn [app find length].
    change (c :: a ++ fence_open ++ r) with ((c :: a) ++ fence_open ++ r).
    rewrite fence_open_no_straddle;
      [|discriminate|now apply find_None_startswith, contains_false_find].
    rewrite IH by now apply contains_false_tail with c. reflexivity.
Qed.

Lemma find_fence_close (a r : str) :
  contains fence_close a = false ->
  find fence_close (a ++ fence_close ++ r) = Some (length a).
Proof.
  induction a as [|c a IH]; intros H.
  - cbn [app length]. apply find_startswith, startswith_app.
  - cbn [app find length].
    change (c :: a ++ fence_close ++ r) with ((c :: a) ++ fence_close ++ r).
    rewrite fence_close_no_straddle;
      [|discriminate|now apply find_None_startswith, contains_false_find].
    rewrite IH by now apply contains_false_tail with c. reflexivity.
Qed.

(** A text without a triple backtick has no closing fence. *)
Lemma no_ticks_no_fence_close (s : str) :
  contains backticks s = false -> contains fence_close s = false.
Proof.
  induction s as [|c s IH]; intros H; [reflexivity|].
  assert (Hs : contains backticks s = false)
    by now apply contains_false_tail with c.
  apply contains_cons_false; [|now apply IH].
  apply contains_false_find, find_None_startswith in Hs.
  change fence_close with (10%N :: backticks).
  cbn [startswith]. rewrite Hs. apply andb_false_r.
Qed.

(** A fenced block whose opening fence is the first of the text and whose
    interior has no closing fence is what the fenced search captures. *)
Lemma search_fenced_block (pre interior post : str) :
  contains fence_open pre = false ->
  contains fence_close interior = false ->
  Re.search fenced_pattern (pre ++ fence_open ++ interior ++ fence_close ++ post)
  = Some interior.
Proof.
  intros Hpre Hin. rewrite search_fenced_find, find_fence_open by exact Hpre.
  cbn zeta.
  replace (skipn (length pre + length fence_open)
             (pre ++ fence_open ++ interior ++ fence_close ++ post))
    with (interior ++ fence_close ++ post).
  - rewrite find_fence_close by exact Hin.
    now rewrite firstn_app, Nat.sub_diag, firstn_all, firstn_O, app_nil_r.
  - rewrite Nat.add_comm, <- skipn_skipn, skipn_app, Nat.sub_diag, skipn_all.
    cbn [app skipn]. rewrite skipn_app, Nat.sub_diag, skipn_all. reflexivity.
Qed.

(** What the fenced search captures lies between two fences. *)
Lemma search_fenced_sound (s g : str) :
  Re.search fenced_pattern s = Some g ->
  exists a c, s = a ++ fence_open ++ g ++ fence_close ++ c.
Proof.
  rewrite search_fenced_find.
  destruct (find fence_open s) as [i|] eqn:Fo; [|discriminate].
  cbv zeta.
  destruct (find fence_close (skipn (i + length fence_open) s)) as [k|] eqn:Fc;
    [|discriminate].
  intros E.
  assert (Hg : g = firstn k (skipn (i + length fence_open) s)) by congruence.
  clear E. subst g.
  apply find_Some in Fo. apply find_Some in Fc.
  exists (firstn i s),
    (skipn (k + length fence_close) (skipn (i + length fence_open) s)).
  rewrite <- Fc. exact Fo.
Qed.

Lemma search_fenced_None (s : str) :
  (forall a b c, s <> a ++ fence_open ++ b ++ fence_close ++ c) ->
  Re.search fenced_pattern s = None.
Proof.
  intros H. destruct (Re.search fenced_pattern s) as [g|] eqn:E; [|reflexivity].
  destruct (search_fenced_sound _ E) as (a & c & Hs). now destruct (H a g c).
Qed.

(** The brace search captures the span from the first opening brace to the
    last closing brace. *)
Lemma search_brace_span (pre mid post : str) :
  ~ In lbrace pre -> ~ In rbrace post ->
  Re.search brace_pattern (pre ++ lbrace :: mid ++ rbrace :: post)
  = Some (lbrace :: mid ++ [rbrace]).
Proof.
  intros Hpre Hpost. rewrite search_brace_find, find_char by exact Hpre.
  cbn zeta.
  replace (skipn (S (length pre)) (pre ++ lbrace :: mid ++ rbrace :: post))
    with (mid ++ rbrace :: post).
  - rewrite rfind_char by exact Hpost.
    replace (mid ++ rbrace :: post) with ((mid ++ [rbrace]) ++ post)
      by now rewrite <- app_assoc.
    rewrite firstn_app.
    replace (S (length mid)) with (length (mid ++ [rbrace]))
      by (rewrite length_app; cbn [length]; lia).
    now rewrite Nat.sub_diag, firstn_all, firstn_O, app_nil_r.
  - change (S (length pre)) with (1 + length pre).
    rewrite <- skipn_skipn, skipn_app, Nat.sub_diag, skipn_all. reflexivity.
Qed.

(** What the brace search captures starts and ends with a brace. *)
Lemma search_brace_sound (s g : str) :
  Re.search brace_pattern s = Some g ->
  exists a b c, g = lbrace :: b ++ [rbrace] /\ s = a ++ g ++ c.
Proof.
  rewrite search_brace_find.
  destruct (find [lbrace] s) as [i|] eqn:Fo; [|discriminate].
  cbv zeta.
  destruct (rfind [rbrace] (skipn (S i) s)) as [k|] eqn:Fc; [|discriminate].
  intros E.
  assert (Hg : g = lbrace :: firstn (S k) (skipn (S i) s)) by congruence.
  clear E. subst g.
  apply find_Some in Fo. cbn [length] in Fo. rewrite Nat.add_1_r in Fo.
  destruct (rfind_char_split _ _ Fc) as (b & c & Hr & Hf).
  exists (firstn i s), b, c. split.
  - now rewrite Hf.
  - rewrite Hf. rewrite Fo at 1. rewrite Hr. cbn [app].
    now rewrite <- app_assoc.
Qed.

Lemma no_fence_open_no_block (s : str) :
  contains fence_open s = false ->
  forall a b c, s <> a ++ fence_open ++ b ++ fence_close ++ c.
Proof.
  intros H a b c. exact (@contains_false_no_occurrence fence_open s H a _).
Qed.

Lemma no_lbrace_no_span (s : str) :
  ~ In lbrace s -> forall a b c, s <> a ++ lbrace :: b ++ rbrace :: c.
Proof.
  intros H a b c ->. apply H, in_or_app. right. now left.
Qed.

Lemma whitespace_no_block (s : str) :
  forallb isspace s = true ->
  (forall a b c, s <> a ++ fence_open ++ b ++ fence_close ++ c) /\
  (forall a b c, s <> a ++ lbrace :: b ++ rbrace :: c).
Proof.
  intros H. split; intros a b c ->.
  - assert (W : isspace tick = true); [|discriminate W].
    apply (@forallb_isspace_In _ tick H), in_or_app. right. now left.
  - assert (W : isspace lbrace = true); [|discriminate W].
    apply (@forallb_isspace_In _ lbrace H), in_or_app. right. now left.
Qed.

Lemma search_brace_None (s : str) :
  (forall a b c, s <> a ++ lbrace :: b ++ rbrace :: c) ->
  Re.search brace_pattern s = None.
Proof.
  intros H. destruct (Re.search brace_pattern s) as [g|] eqn:E; [|reflexivity].
  destruct (search_brace_sound _ E) as (a & b & c & -> & Hs).
  destruct (H a b c). rewrite Hs. cbn [app]. now rewrite <- app_assoc.
Qed.

End ReFacts.

(** ** The decoder ignores whitespace around the document *)

Module JsonFacts.

Import PyFacts.

(** Split [H : isspace c = true] into the code points it allows. *)
Ltac ws_cases c H :=
  unfold isspace, whitespace in H; cbn [existsb] in H;
  repeat (apply orb_true_iff in H;
          destruct H as [H|H]; [apply N.eqb_eq in H; subst c|]);
  [..|discriminate H].

(** Evaluate the automaton in [H] and in the goal, splitting on whatever
    part of the state the evaluation waits for. *)
Ltac crunch H :=
  repeat (vm_compute in H |- *;
          try discriminate H; try exact H;
          match type of H with
          | context [match ?x with _ => _ end] => is_var x; destruct x
          end).

(** Evaluate the state named by [E : st = ...], splitting on whatever part
    of the input state the evaluation waits for, until [st] is known. *)
Ltac settle E :=
  repeat (vm_compute in E;
          match type of E with
          | _ = match ?x with _ => _ end => is_var x; destruct x
          end).

(** The same for [H : step inner None = ...]: first make [inner] known. *)
Ltac crunch_end H :=
  match type of H with
  | Json.step ?inner None = _ =>
      let st' := fresh "st'" in
      let E := fresh "E" in
      remember inner as st' eqn:E; settle E; subst st'; crunch H
  end.

(** The index only places the error message. *)
Lemma run_index (doc : str) (st : Json.state) (i k : nat) (v : value) :
  Json.run st doc i = Json.Decoded v -> Json.run st doc k = Json.Decoded v.
Proof.
  revert st i k; induction doc as [|c doc IH]; intros st i k; cbn [Json.run].
  - destruct (Json.step st None) as [[|? ?] []|]; congruence.
  - destruct (Json.step st (Some c)); [apply IH|discriminate].
Qed.

Lemma run_nil (st : Json.state) (i : nat) (v : value) :
  Json.run st [] i = Json.Decoded v <->
  Json.step st None = Json.Run [] (Json.MDone v).
Proof.
  cbn [Json.run]. destruct (Json.step st None) as [[|? ?] []|];
    split; congruence.
Qed.

(** No literal contains whitespace. *)
Lemma literal_no_ws (k : Json.literal) (n : nat) (r : char) :
  nth_error (Json.literal_text k) n = Some r -> isspace r = false.
Proof.
  destruct k; do 10 (destruct n as [|n]; [now intros [= <-]|]);
    destruct n; discriminate.
Qed.

Lemma step_literal_ws (stack : list Json.frame) (k : Json.literal)
    (seen : nat) (c : char) :
  isspace c = true ->
  exists msg back, Json.step_literal stack k seen (Some c) = Json.Fail msg back.
Proof.
  intros W. unfold Json.step_literal.
  destruct (nth_error (Json.literal_text k) seen) as [r|] eqn:E; [|eauto].
  cbn [Json.is_chr]. destruct (N.eqb_spec c r) as [->|_]; [|eauto].
  apply literal_no_ws in E. congruence.
Qed.

(** Between tokens, a whitespace character before the end of the document
    changes nothing of a document that decodes. *)
Lemma then_plain_ws_end (st : Json.state) (c : char) (v : value) :
  isspace c = true ->
  Json.step (Json.then_plain st (Some c)) None = Json.Run [] (Json.MDone v) ->
  Json.then_plain st None = Json.Run [] (Json.MDone v).
Proof.
  intros W H. destruct st as [stack m|msg back]; [|exact H].
  destruct m;
    try (cbn [Json.then_plain Json.step_plain Json.step] in H; discriminate H);
    ws_cases c W; crunch_end H.
Qed.

(** Inside a number, whitespace ends the number if it can end there. *)
Lemma step_number_ws (stack : list Json.frame) (ns : Json.numstate)
    (lx : str) (c : char) :
  isspace c = true ->
  let after := Json.deliver stack (Json.number_value ns lx) in
  (Json.step_number stack ns lx (Some c) = Json.then_plain after (Some c) /\
   Json.step_number stack ns lx None = Json.then_plain after None)
  \/ exists msg back, Json.step_number stack ns lx (Some c) = Json.Fail msg back.
Proof.
  intros W after. subst after.
  destruct ns; ws_cases c W;
    first [left; split; reflexivity | right; eexists; eexists; reflexivity].
Qed.

(** Inside a string, whitespace does not close the string. *)
Lemma step_string_ws (stack : list Json.frame) (buf : str) (raw : nat)
    (ss : Json.strstate) (c : char) (v : value) :
  isspace c = true ->
  Json.step (Json.step_string stack buf raw ss (Some c)) None
  <> Json.Run [] (Json.MDone v).
Proof.
  intros W H. destruct ss; ws_cases c W; crunch_end H.
Qed.

(** A whitespace character before the end of the document changes nothing
    of a document that decodes. *)
Lemma step_ws_end (st : Json.state) (c : char) (v : value) :
  isspace c = true ->
  Json.step (Json.step st (Some c)) None = Json.Run [] (Json.MDone v) ->
  Json.step st None = Json.Run [] (Json.MDone v).
Proof.
  intros W H. destruct st as [stack m|msg back]; [|exact H].
  destruct m;
    try (exact (@then_plain_ws_end (Json.Run stack _) c v W H)).
  - cbn [Json.step] in H.
    destruct (step_literal_ws stack k seen c W) as (msg & back & E).
    rewrite E in H. discriminate H.
  - cbn [Json.step] in H |- *.
    destruct (step_number_ws stack ns lexeme c W)
      as [[E1 E2]|(msg & back & E)].
    + rewrite E1 in H. rewrite E2.
      destruct (Json.deliver stack (Json.number_value ns lexeme))
        as [stack' m'|msg back] eqn:D; [|exact H].
      exact (@then_plain_ws_end (Json.Run stack' m') c v W H).
    + rewrite E in H. discriminate H.
  - cbn [Json.step] in H. now apply step_string_ws in H.
Qed.

(** Whitespace before the document is skipped, or is not JSON whitespace. *)
Lemma step_init_ws (c : char) :
  isspace c = true ->
  Json.step Json.init (Some c) = Json.init
  \/ exists msg back, Json.step Json.init (Some c) = Json.Fail msg back.
Proof.
  intros W. ws_cases c W;
    first [left; reflexivity | right; eexists; eexists; reflexivity].
Qed.

Lemma run_lstrip (s : str) (v : value) :
  Json.run Json.init s 0 = Json.Decoded v ->
  Json.run Json.init (lstrip s) 0 = Json.Decoded v.
Proof.
  induction s as [|c s IH]; intros H; [exact H|].
  cbn [lstrip]. destruct (isspace c) eqn:W; [|exact H].
  cbn [Json.run] in H.
  destruct (step_init_ws c W) as [E|(msg & back & E)]; rewrite E in H.
  - apply IH. exact (run_index _ _ _ 0 H).
  - discriminate H.
Qed.

Lemma run_rstrip (s : str) (st : Json.state) (i : nat) (v : value) :
  Json.run st s i = Json.Decoded v ->
  Json.run st (rstrip s) i = Json.Decoded v.
Proof.
  revert st i; induction s as [|c s IH]; intros st i H; [exact H|].
  rewrite rstrip_cons. cbn [Json.run] in H.
  destruct (Json.step st (Some c)) as [stack m|msg back] eqn:E;
    [|discriminate H].
  apply IH in H.
  destruct (rstrip s) as [|d r] eqn:R.
  - destruct (isspace c) eqn:W.
    + apply run_nil. apply run_nil in H.
      apply step_ws_end with c; [exact W|]. now rewrite E.
    + cbn [Json.run]. rewrite E. exact H.
  - cbn [Json.run]. rewrite E. exact H.
Qed.

(** [json.loads] accepts a document stripped of surrounding whitespace, with
    the same value. *)
Lemma loads_strip (s : str) (v : value) :
  Json.loads s = inr v -> Json.loads (strip s) = inr v.
Proof.
  unfold Json.loads.
  destruct (startswith [65279%N] s); [discriminate|].
  destruct (Json.run Json.init s 0) as [x|] eqn:R; [|discriminate].
  intros [= ->].
  assert (R' : Json.run Json.init (strip s) 0 = Json.Decoded v)
    by (unfold strip; apply run_rstrip, run_lstrip, R).
  destruct (startswith [65279%N] (strip s)) eqn:B; [|now rewrite R'].
  exfalso. destruct (strip s) as [|c r]; [discriminate B|].
  cbn [startswith] in B. apply andb_true_iff in B as [B _].
  apply N.eqb_eq in B. subst c. cbn [Json.run] in R'.
  vm_compute in R'. discriminate R'.
Qed.

End JsonFacts.

(** ** [generate_job_requirements] *)

Module GenerateFacts.

Import PyFacts JobRequirements.

Arguments prompt : simpl never.
Arguments payload : simpl never.

Section Calls.

Variable json_loads : Decoder.
Variable server : Server.
Variables job_title model : str.
Variable w : World.

Abbreviation call := (generate_job_requirements json_loads server job_title model w).

(** A call makes exactly one request and touches nothing else. *)
Lemma generate_world : snd call = posted w (request job_title model).
Proof.
  unfold generate_job_requirements, bind, lift, requests_post, posted, request.
  destruct (server _ _) as [[]|resp]; try reflexivity.
  destruct (raise_for_status resp) as [[]|[]]; try reflexivity.
  destruct (response_json json_loads resp) as [[]|body]; try reflexivity.
  destruct (get_method body _ _) as [[]|full]; try reflexivity.
  destruct (search_subject full) as [[]|t]; try reflexivity.
  destruct (extract_json json_loads t) as [[]|r]; reflexivity.
Qed.

Lemma generate_model_output (t : str) :
  model_output json_loads server w job_title model t ->
  fst call = returned (extract_json json_loads t).
Proof.
  intros (resp & body & Hs & Hr & Hj & Hg).
  unfold generate_job_requirements, bind, lift, requests_post.
  unfold request in Hs. rewrite Hs, Hr, Hj, Hg. cbn [search_subject].
  destruct (extract_json json_loads t) as [[]|r]; reflexivity.
Qed.

(** Lines 119 to 122 catch whatever the body of the [try] raises. *)
Lemma generate_try_body :
  call = (returned (fst (try_body json_loads server job_title model w)),
          snd (try_body json_loads server job_title model w)).
Proof.
  unfold generate_job_requirements, try_body.
  match goal with
  | |- context [match ?b with _ => _ end] => destruct b as [[[]|]]
  end; reflexivity.
Qed.

(** Every call ends in one of five ways. *)
Lemma generate_ending : ending json_loads server w job_title model (fst call).
Proof.
  destruct (server (posts w) (request job_title model)) as [e|resp] eqn:Hs.
  { unfold generate_job_requirements, bind, lift, requests_post.
    unfold request in Hs. rewrite Hs. destruct e; constructor. }
  destruct (raise_for_status resp) as [e|[]] eqn:Hr.
  { unfold generate_job_requirements, bind, lift, requests_post.
    unfold request in Hs. rewrite Hs, Hr. destruct e; constructor. }
  destruct (response_json json_loads resp) as [e|body] eqn:Hj.
  { unfold generate_job_requirements, bind, lift, requests_post.
    unfold request in Hs. rewrite Hs, Hr, Hj. destruct e; constructor. }
  destruct (get_method body (u "response") (VStr [])) as [e|full] eqn:Hg.
  { unfold generate_job_requirements, bind, lift, requests_post.
    unfold request in Hs. rewrite Hs, Hr, Hj, Hg. destruct e; constructor. }
  destruct (search_subject full) as [e|t] eqn:Ht.
  { unfold generate_job_requirements, bind, lift, requests_post.
    unfold request in Hs. rewrite Hs, Hr, Hj, Hg, Ht. destruct e; constructor. }
  assert (Hfull : full = VStr t).
  { destruct full; try discriminate Ht. now injection Ht as ->. }
  subst full.
  assert (Hm : model_output json_loads server w job_title model t)
    by (exists resp, body; auto).
  rewrite (generate_model_output Hm).
  unfold extract_json. destruct (json_match t) as [g|]; [|now constructor].
  unfold parse. destruct (json_loads (clean g)) as [[]|v]; cbn [returned];
    econstructor; eassumption.
Qed.

End Calls.

End GenerateFacts.

(** ** The extraction step *)

Import PyFacts ReFacts JobRequirements.

Lemma json_match_fenced (text g : str) :
  Re.search fenced_pattern text = Some g -> json_match text = Some g.
Proof. unfold json_match. now intros ->. Qed.

Lemma json_match_brace (text : str) :
  Re.search fenced_pattern text = None ->
  json_match text = Re.search brace_pattern text.
Proof. unfold json_match. now intros ->. Qed.

(** A candidate that is valid JSON without a triple backtick is decoded as
    it stands, by a decoder that ignores surrounding whitespace. *)
Lemma parse_clean_valid (json_loads : Decoder) (cand text : str) (v : value) :
  (forall s x, json_loads s = inr x -> json_loads (strip s) = inr x) ->
  contains backticks cand = false ->
  json_loads cand = inr v ->
  parse json_loads (clean cand) text = inr (v, None).
Proof.
  intros Hws Hticks Hv. unfold parse, clean.
  rewrite replace_ticks_id by exact Hticks.
  now rewrite (Hws _ _ Hv).
Qed.

(** What [strip] removes is whitespace, and it removes all of it at both
    ends. *)
Lemma lstrip_split (s : str) :
  exists a, s = a ++ lstrip s /\ forallb isspace a = true.
Proof.
  induction s as [|c s (a & IH & Ha)]; [now exists []|].
  cbn [lstrip]. destruct (isspace c) eqn:E; [|now exists []].
  exists (c :: a). cbn [app forallb]. rewrite E, Ha. split; [|reflexivity].
  now f_equal.
Qed.

Lemma forallb_rev (A : Type) (f : A -> bool) (l : list A) :
  forallb f l = true -> forallb f (rev l) = true.
Proof.
  rewrite !forallb_forall. intros H x Hx. apply H. now apply in_rev.
Qed.

Lemma rstrip_split (s : str) :
  exists b, s = rstrip s ++ b /\ forallb isspace b = true.
Proof.
  unfold rstrip. destruct (lstrip_split (rev s)) as (a & H & Ha).
  exists (rev a). split; [|now apply forallb_rev].
  rewrite <- rev_app_distr, <- H. now rewrite rev_involutive.
Qed.

Lemma strip_split (s : str) :
  exists a b, s = a ++ strip s ++ b /\
              forallb isspace a = true /\ forallb isspace b = true.
Proof.
  destruct (lstrip_split s) as (a & Ha & Wa).
  destruct (rstrip_split (lstrip s)) as (b & Hb & Wb).
  exists a, b. unfold strip. now rewrite <- Hb, <- Ha.
Qed.

Lemma strip_head (s : str) (c : char) (r : str) :
  strip s = c :: r -> isspace c = false.
Proof.
  intros H. apply (@lstrip_head (strip s) c r).
  now rewrite (proj1 (strip_ends s)).
Qed.

Lemma strip_last (s r : str) (c : char) :
  strip s = r ++ [c] -> isspace c = false.
Proof.
  intros H. assert (E := proj2 (strip_ends s)). rewrite H in E.
  unfold rstrip in E. rewrite rev_app_distr in E. cbn [rev app] in E.
  apply (f_equal (@rev char)) in E.
  rewrite rev_involutive, rev_app_distr in E. cbn [rev app] in E.
  exact (@lstrip_head (c :: rev r) c (rev r) E).
Qed.

(** A text that can be encoded can still be encoded once stripped. *)
Lemma encodable_strip (s : str) : encodable s = true -> encodable (strip s) = true.
Proof.
  destruct (strip_split s) as (a & b & H & _). intros E.
  rewrite H in E. unfold encodable in *.
  rewrite !forallb_app in E.
  now apply andb_true_iff in E as [_ [E _]%andb_true_iff].
Qed.

(** C1, as the code has it: for every text with a fenced JSON block whose
    opening fence is the first of the text and whose interior is valid JSON
    and contains no triple backtick, the extraction step returns the value
    that decoding the interior directly gives, and no error.  The decoder
    is any that ignores whitespace around a document, as [json.loads]
    does. *)
Theorem fenced_block_decoded (json_loads : Decoder)
    (pre interior post : str) (v : value) :
  (forall s x, json_loads s = inr x -> json_loads (strip s) = inr x) ->
  contains fence_open pre = false ->
  contains backticks interior = false ->
  json_loads interior = inr v ->
  extract_json json_loads
    (pre ++ fence_open ++ interior ++ fence_close ++ post)
  = inr (v, None).
Proof.
  intros Hws Hpre Hticks Hv. unfold extract_json.
  rewrite (@json_match_fenced _ interior).
  - now apply parse_clean_valid.
  - apply search_fenced_block; [exact Hpre|].
    now apply no_ticks_no_fence_close.
Qed.

(** The end-to-end example of the specification. *)
Lemma fenced_block_decoded_witness :
  extract_json Json.loads
    ((u "Here is the result:" ++ nl) ++ fence_open
     ++ j "{'a': 1, 'b': [1,2]}" ++ fence_close ++ (nl ++ u "Thanks."))
  = inr (VDict [(u "a", VInt 1); (u "b", VList [VInt 1; VInt 2])], None).
Proof.
  apply (@fenced_block_decoded Json.loads
           (u "Here is the result:" ++ nl) (j "{'a': 1, 'b': [1,2]}")
           (nl ++ u "Thanks.")).
  - exact JsonFacts.loads_strip.
  - vm_compute. reflexivity.
  - vm_compute. reflexivity.
  - vm_compute. reflexivity.
Defined.

(** C1 as stated fails: a fenced block whose valid JSON interior has a
    triple backtick inside a string value is decoded to another value than
    the interior decodes to. *)
Lemma fenced_block_decoded_counterexample :
  ~ (forall pre interior post v,
       contains fence_open pre = false ->
       contains fence_close interior = false ->
       Json.loads interior = inr v ->
       extract_json Json.loads
         (pre ++ fence_open ++ interior ++ fence_close ++ post)
       = inr (v, None)).
Proof.
  intros H.
  specialize (H [] (j "{'a': 'x```y'}") []
                (VDict [(u "a", VStr (u "x```y"))])
                eq_refl eq_refl eq_refl).
  vm_compute in H. discriminate H.
Qed.

(** C2, as the code has it: for every text without a fenced block in which
    one brace span holds every brace of the text, is valid JSON and contains
    no triple backtick, the extraction step returns the value that decoding
    the span directly gives, and no error. *)
Theorem brace_span_decoded (json_loads : Decoder)
    (pre mid post : str) (v : value) :
  let span := lbrace :: mid ++ [rbrace] in
  let text := pre ++ span ++ post in
  (forall s x, json_loads s = inr x -> json_loads (strip s) = inr x) ->
  (forall a b c, text <> a ++ fence_open ++ b ++ fence_close ++ c) ->
  ~ In lbrace pre ->
  ~ In rbrace post ->
  contains backticks span = false ->
  json_loads span = inr v ->
  extract_json json_loads text = inr (v, None).
Proof.
  intros span text Hws Hfence Hpre Hpost Hticks Hv. unfold extract_json.
  rewrite json_match_brace by now apply search_fenced_None.
  assert (Ht : text = pre ++ lbrace :: mid ++ rbrace :: post).
  { unfold text, span. cbn [app]. now rewrite <- app_assoc. }
  rewrite Ht, search_brace_span by assumption.
  rewrite <- Ht. now apply parse_clean_valid.
Qed.

Lemma brace_span_decoded_witness :
  extract_json Json.loads
    (u "Result: " ++ (lbrace :: j "'a': [1, 2.5, null]" ++ [rbrace])
     ++ u " done.")
  = inr (VDict [(u "a", VList [VInt 1; VFloat (u "2.5"); VNone])], None).
Proof.
  apply (@brace_span_decoded Json.loads (u "Result: ")
           (j "'a': [1, 2.5, null]") (u " done.")).
  - exact JsonFacts.loads_strip.
  - apply no_fence_open_no_block. vm_compute. reflexivity.
  - vm_compute. intuition discriminate.
  - vm_compute. intuition discriminate.
  - vm_compute. reflexivity.
  - vm_compute. reflexivity.
Defined.

(** C2 as stated fails in the same way: the only brace span of a text is
    valid JSON with a triple backtick inside a string value. *)
Lemma brace_span_decoded_counterexample :
  ~ (forall pre mid post v,
       let span := lbrace :: mid ++ [rbrace] in
       let text := pre ++ span ++ post in
       (forall a b c, text <> a ++ fence_open ++ b ++ fence_close ++ c) ->
       ~ In lbrace pre ->
       ~ In rbrace post ->
       Json.loads span = inr v ->
       extract_json Json.loads text = inr (v, None)).
Proof.
  intros H.
  specialize (H [] (j "'a': '```'") [] (VDict [(u "a", VStr (u "```"))])).
  cbv zeta in H.
  assert (E : extract_json Json.loads
                ([] ++ (lbrace :: j "'a': '```'" ++ [rbrace]) ++ [])
              = inr (VDict [(u "a", VStr (u "```"))], None)).
  { apply H.
    - apply no_fence_open_no_block. vm_compute. reflexivity.
    - intros [].
    - intros [].
    - vm_compute. reflexivity. }
  vm_compute in E. discriminate E.
Qed.

(** C3 as stated fails: a candidate that does not decode as JSON need not
    make the extraction step fail, because what is decoded is the candidate
    after the cleanup.  Here the candidate is the whole text, which does
    not decode, and the step returns the value of the text without its
    backticks, with no error. *)
Lemma malformed_payload_counterexample :
  ~ (forall text cand detail,
       json_match text = Some cand ->
       Json.loads cand = inl (JSONDecodeError detail) ->
       exists msg, extract_json Json.loads text = inr (VNone, Some msg)).
Proof.
  intros H.
  assert (Hm : json_match (j "{'a': 1```}") = Some (j "{'a': 1```}"))
    by (vm_compute; reflexivity).
  assert (Hd : Json.loads (j "{'a': 1```}")
               = inl (JSONDecodeError
                        (u "Expecting ',' delimiter: line 1 column 8 (char 7)")))
    by (vm_compute; reflexivity).
  destruct (H _ _ _ Hm Hd) as [msg E].
  assert (Hv : extract_json Json.loads (j "{'a': 1```}")
               = inr (VDict [(u "a", VInt 1)], None))
    by (vm_compute; reflexivity).
  rewrite Hv in E. discriminate E.
Qed.

(** C3, as the code has it: when a candidate is found, what the extraction
    step does is decided by the candidate after the cleanup.  If decoding
    the cleaned candidate raises a JSON decode error, the step returns no
    result and the invalid-JSON message, which holds the decoder's detail
    and ends with the whole response text; if it raises anything else, the
    exception leaves the step; if it returns a value, that value is
    returned with no error. *)
Theorem malformed_payload (json_loads : Decoder) (text cand : str) :
  json_match text = Some cand ->
  (forall detail,
     json_loads (strip (replace backticks [] cand))
     = inl (JSONDecodeError detail) ->
     extract_json json_loads text
     = inr (VNone,
            Some (u "Error: Model returned invalid JSON. Details:" ++ nl
                  ++ detail ++ nl ++ u "Raw response:" ++ nl ++ text))
     /\ is_malformed_payload
          (u "Error: Model returned invalid JSON. Details:" ++ nl
           ++ detail ++ nl ++ u "Raw response:" ++ nl ++ text) = true) /\
  (forall e,
     json_loads (strip (replace backticks [] cand)) = inl e ->
     (forall detail, e <> JSONDecodeError detail) ->
     extract_json json_loads text = inl e) /\
  (forall v,
     json_loads (strip (replace backticks [] cand)) = inr v ->
     extract_json json_loads text = inr (v, None)).
Proof.
  intros Hm. unfold extract_json, parse, clean. rewrite Hm.
  split; [|split].
  - intros detail Hd. rewrite Hd. split; reflexivity.
  - intros e He Hne. rewrite He.
    destruct e as [m|m|m]; [reflexivity| |reflexivity].
    now destruct (Hne m).
  - intros v Hv. now rewrite Hv.
Qed.

(** The trailing-comma example of the specification. *)
Lemma malformed_payload_witness :
  extract_json Json.loads (j "{'a': 1,}")
  = inr (VNone,
         Some (u "Error: Model returned invalid JSON. Details:" ++ nl
               ++ u "Expecting property name enclosed in double quotes: line 1 column 9 (char 8)"
               ++ nl ++ u "Raw response:" ++ nl ++ j "{'a': 1,}"))
  /\ is_malformed_payload
       (u "Error: Model returned invalid JSON. Details:" ++ nl
        ++ u "Expecting property name enclosed in double quotes: line 1 column 9 (char 8)"
        ++ nl ++ u "Raw response:" ++ nl ++ j "{'a': 1,}") = true.
Proof.
  apply (proj1 (@malformed_payload Json.loads (j "{'a': 1,}") (j "{'a': 1,}")
                  ltac:(vm_compute; reflexivity))).
  vm_compute. reflexivity.
Defined.

(** C4: a text with no fenced block and no brace span, and so every empty
    or whitespace-only text, makes the extraction step return no result and
    the not-found message, which ends with the whole text. *)
Theorem payload_not_found (json_loads : Decoder) (text : str) :
  ((forall a b c, text <> a ++ fence_open ++ b ++ fence_close ++ c) /\
   (forall a b c, text <> a ++ lbrace :: b ++ rbrace :: c))
  \/ forallb isspace text = true ->
  extract_json json_loads text
  = inr (VNone,
         Some (u "Error: Could not find JSON in response. Raw response:"
               ++ nl ++ text))
  /\ is_payload_not_found (not_found text) = true.
Proof.
  intros H.
  assert (H' : (forall a b c, text <> a ++ fence_open ++ b ++ fence_close ++ c)
               /\ (forall a b c, text <> a ++ lbrace :: b ++ rbrace :: c)).
  { destruct H as [H|H]; [exact H|now apply whitespace_no_block]. }
  destruct H' as [Hf Hb]. split; [|reflexivity].
  unfold extract_json.
  rewrite json_match_brace by now apply search_fenced_None.
  now rewrite search_brace_None.
Qed.

Lemma payload_not_found_witness :
  extract_json Json.loads (u "No JSON here.")
  = inr (VNone,
         Some (u "Error: Could not find JSON in response. Raw response:"
               ++ nl ++ u "No JSON here."))
  /\ is_payload_not_found (not_found (u "No JSON here.")) = true.
Proof.
  apply (@payload_not_found Json.loads (u "No JSON here.")).
  left. split.
  - apply no_fence_open_no_block. vm_compute. reflexivity.
  - apply no_lbrace_no_span. vm_compute. intuition discriminate.
Defined.

(** C5: when the text has a fenced JSON block, the candidate is the
    interior of the first one, whatever braces the text holds; the brace
    search is not reached.  The candidate is then cleaned, and the cleaned
    text is what is decoded.  The cleanup deletes backticks only and leaves
    no triple backtick; it then removes whitespace, and nothing else, from
    both ends: the cleaned text neither starts nor ends with a whitespace
    character. *)
Theorem fenced_block_first (json_loads : Decoder) (pre interior post : str) :
  contains fence_open pre = false ->
  contains fence_close interior = false ->
  let text := pre ++ fence_open ++ interior ++ fence_close ++ post in
  let cleaned := strip (replace backticks [] interior) in
  Re.search fenced_pattern text = Some interior /\
  json_match text = Some interior /\
  extract_json json_loads text = parse json_loads cleaned text /\
  contains backticks cleaned = false /\
  lstrip cleaned = cleaned /\
  rstrip cleaned = cleaned /\
  (exists unfenced before after,
     filter (fun c => negb (N.eqb c tick)) unfenced
     = filter (fun c => negb (N.eqb c tick)) interior /\
     (forall a b, unfenced <> a ++ backticks ++ b) /\
     unfenced = before ++ cleaned ++ after /\
     forallb isspace before = true /\
     forallb isspace after = true) /\
  (forall c r, cleaned = c :: r -> isspace c = false) /\
  (forall r c, cleaned = r ++ [c] -> isspace c = false) /\
  (forall a b, cleaned <> a ++ backticks ++ b).
Proof.
  intros Hpre Hin text cleaned.
  assert (Hs : Re.search fenced_pattern text = Some interior)
    by now apply search_fenced_block.
  assert (Hm := json_match_fenced _ Hs).
  assert (Hn : contains backticks cleaned = false)
    by apply contains_false_strip, replace_ticks_none_left.
  split; [exact Hs|]. split; [exact Hm|].
  split; [unfold extract_json; now rewrite Hm|].
  split; [exact Hn|].
  split; [apply strip_ends|]. split; [apply strip_ends|].
  split; [|split; [|split]].
  - destruct (strip_split (replace backticks [] interior))
      as (before & after & Hsplit & Wb & Wa).
    exists (replace backticks [] interior), before, after.
    split; [apply replace_ticks_keeps_others|].
    split; [|split; [exact Hsplit|split; assumption]].
    apply contains_false_no_occurrence, replace_ticks_none_left.
  - intros c r. apply strip_head.
  - intros r c. apply strip_last.
  - now apply contains_false_no_occurrence.
Qed.

(** Two fenced blocks and braces outside them: the first block is taken,
    its backticks, the blank before and the blank and the tab after are
    dropped. *)
Lemma fenced_block_first_witness :
  let text := u "{x} " ++ fence_open ++ (u " [1] ```" ++ [9%N]) ++ fence_close
              ++ (u " and " ++ fence_open ++ u "[2]" ++ fence_close) in
  Re.search fenced_pattern text = Some (u " [1] ```" ++ [9%N]) /\
  json_match text = Some (u " [1] ```" ++ [9%N]) /\
  extract_json Json.loads text = parse Json.loads (u "[1]") text /\
  contains backticks (u "[1]") = false /\
  lstrip (u "[1]") = u "[1]" /\
  rstrip (u "[1]") = u "[1]" /\
  (exists unfenced before after,
     filter (fun c => negb (N.eqb c tick)) unfenced
     = filter (fun c => negb (N.eqb c tick)) (u " [1] ```" ++ [9%N]) /\
     (forall a b, unfenced <> a ++ backticks ++ b) /\
     unfenced = before ++ u "[1]" ++ after /\
     forallb isspace before = true /\
     forallb isspace after = true) /\
  (forall c r, u "[1]" = c :: r -> isspace c = false) /\
  (forall r c, u "[1]" = r ++ [c] -> isspace c = false) /\
  (forall a b, u "[1]" <> a ++ backticks ++ b).
Proof.
  apply (@fenced_block_first Json.loads (u "{x} ") (u " [1] ```" ++ [9%N])
           (u " and " ++ fence_open ++ u "[2]" ++ fence_close)).
  - vm_compute. reflexivity.
  - vm_compute. reflexivity.
Defined.

(** ** The call as a whole *)

Import GenerateFacts.

(** C6: what a call returns is a function of the response text alone.  Two
    calls that receive the same text, from whatever endpoint, in whatever
    world and for whatever job title and model, return the same pair, the
    one the extraction step computes from the text; and a call leaves the
    screen and the files as they were, adding only its request. *)
Theorem extractor_pure (json_loads : Decoder) (server1 server2 : Server)
    (w1 w2 : World) (job1 model1 job2 model2 t : str) :
  model_output json_loads server1 w1 job1 model1 t ->
  model_output json_loads server2 w2 job2 model2 t ->
  let r1 := generate_job_requirements json_loads server1 job1 model1 w1 in
  let r2 := generate_job_requirements json_loads server2 job2 model2 w2 in
  fst r1 = fst r2 /\
  fst r1 = returned (extract_json json_loads t) /\
  snd r1 = posted w1 (request job1 model1) /\
  snd r2 = posted w2 (request job2 model2).
Proof.
  intros H1 H2 r1 r2. unfold r1, r2.
  rewrite (generate_model_output H1), (generate_model_output H2).
  repeat split; apply generate_world.
Qed.

(** The same response text on a first call and on a second call made in
    the world the first one left. *)
Lemma extractor_pure_witness :
  let server := answering (j "{'response': 'Sure: {\'a\': [1, 2]} there.'}") in
  let w1 := fresh in
  let w2 := snd (generate_job_requirements Json.loads server
                   (u "Data Scientist") (u "llama3:latest") w1) in
  let r1 := generate_job_requirements Json.loads server
              (u "Data Scientist") (u "llama3:latest") w1 in
  let r2 := generate_job_requirements Json.loads server
              (u "Data Engineer") (u "gemma:2b") w2 in
  fst r1 = fst r2 /\
  fst r1 = returned (extract_json Json.loads (j "Sure: {'a': [1, 2]} there.")) /\
  snd r1 = posted w1 (request (u "Data Scientist") (u "llama3:latest")) /\
  snd r2 = posted w2 (request (u "Data Engineer") (u "gemma:2b")).
Proof.
  intros server w1 w2.
  apply (@extractor_pure Json.loads server server w1 w2
           (u "Data Scientist") (u "llama3:latest")
           (u "Data Engineer") (u "gemma:2b")
           (j "Sure: {'a': [1, 2]} there.")).
  - eexists. eexists. repeat split; vm_compute; reflexivity.
  - eexists. eexists. repeat split; vm_compute; reflexivity.
Defined.

(** The four heads of a failure message exclude one another. *)
Lemma classes_connection (e : str) :
  classes (connection_error e) = [true; false; false; false].
Proof. reflexivity. Qed.

Lemma classes_not_found (t : str) :
  classes (not_found t) = [false; true; false; false].
Proof. reflexivity. Qed.

Lemma classes_invalid (e t : str) :
  classes (invalid_json e t) = [false; false; true; false].
Proof. reflexivity. Qed.

Lemma classes_unexpected (e : str) :
  classes (unexpected_error e) = [false; false; false; true].
Proof. reflexivity. Qed.

Lemma str_eqb_refl (a : str) : str_eqb a a = true.
Proof. induction a as [|c a IH]; [reflexivity|]. cbn. now rewrite N.eqb_refl. Qed.

Lemma file_get_set (fs : list (str * str)) (name data : str) :
  file_get (file_set fs name data) name = Some data.
Proof.
  induction fs as [|[n d] fs IH]; cbn [file_set file_get].
  - now rewrite str_eqb_refl.
  - destruct (str_eqb n name) eqn:E; cbn [file_get]; now rewrite E.
Qed.

Lemma file_set_set (fs : list (str * str)) (name a b : str) :
  file_set (file_set fs name a) name b = file_set fs name b.
Proof.
  induction fs as [|[n d] fs IH]; cbn [file_set].
  - now rewrite str_eqb_refl.
  - destruct (str_eqb n name) eqn:E; cbn [file_set]; rewrite E;
      [reflexivity|now rewrite IH].
Qed.

(** A text without surrogates is encoded without an error. *)
Lemma encode_error_from_None (s : str) (i : nat) :
  encodable s = true -> encode_error_from i s = None.
Proof.
  revert i; induction s as [|c s IH]; intros i H; [reflexivity|].
  cbn [encodable forallb] in H. apply andb_true_iff in H as [Hc Hs].
  cbn [encode_error_from]. apply negb_true_iff in Hc. rewrite Hc.
  now apply IH.
Qed.

Lemma encode_error_None (s : str) : encodable s = true -> encode_error s = None.
Proof. apply encode_error_from_None. Qed.

(** A text can be encoded when none of its code points lies between
    U+D800 and U+DFFF. *)
Lemma encodable_no_surrogate (s : str) :
  (forall c, In c s -> (c < 55296 \/ 57343 < c)%N) -> encodable s = true.
Proof.
  intros H. apply forallb_forall. intros c Hc. apply negb_true_iff.
  unfold is_surrogate. apply andb_false_iff.
  destruct (H c Hc) as [L|L]; [left; now apply N.leb_gt|right; now apply N.leb_gt].
Qed.

(** [open(name, "w")] and one [write] of a text that can be encoded leave
    the file holding what was written. *)
Lemma open_write_then (A : Type) (name data : str) (k : M A) (w : World) :
  encodable data = true ->
  bind (open_w name) (fun _ => bind (write name (VStr data)) (fun _ => k)) w
  = k {| posts := posts w; screen := screen w;
         files := file_set (files w) name data |}.
Proof.
  intros He. unfold bind, open_w, write. rewrite (encode_error_None _ He).
  cbn [files posts screen].
  now rewrite file_get_set, file_set_set.
Qed.

(** A widget whose texts can all be encoded is shown. *)
Lemma show_shown (wd : widget) (w : World) :
  forallb encodable (widget_texts wd) = true ->
  show wd w = (inr tt, {| posts := posts w; screen := screen w ++ [wd];
                           files := files w |}).
Proof.
  intros H. unfold show.
  assert (E : List.find (fun t => negb (encodable t)) (widget_texts wd) = None).
  { induction (widget_texts wd) as [|t l IH]; [reflexivity|].
    cbn [forallb] in H. apply andb_true_iff in H as [Ht Hl].
    cbn [List.find]. rewrite Ht. now apply IH. }
  now rewrite E.
Qed.

(** Discharge the side condition of [show_shown]. *)
Ltac texts_ok :=
  cbn [widget_texts forallb];
  repeat match goal with
         | H : encodable _ = true |- _ => rewrite H
         end;
  vm_compute; reflexivity.

(** C7 as stated fails: a reply whose JSON body is not an object ends the
    call with a failure that is none of the three classes. *)
Lemma failure_taxonomy_counterexample :
  ~ (forall server job_title model w msg,
       snd (fst (generate_job_requirements Json.loads server job_title model w))
       = Some msg ->
       is_connection_failure msg = true \/
       is_payload_not_found msg = true \/
       is_malformed_payload msg = true).
Proof.
  intros H.
  specialize (H (answering (u "[]")) (u "Data Scientist") (u "llama3:latest")
                fresh
                (u "Unexpected error: 'list' object has no attribute 'get'")
                eq_refl).
  vm_compute in H. destruct H as [H|[H|H]]; discriminate H.
Qed.

(** C7, as the code has it: a call makes exactly one request, whatever
    happens, and a failure falls in exactly one of four classes.  Whatever
    the body of the [try] raises is caught: a [RequestException] is a
    connection failure, any other exception an unexpected error.  So an
    endpoint that cannot be reached, a 4xx or 5xx status and a body that is
    not JSON are connection failures; a response text without a candidate
    is a payload not found; a cleaned candidate that does not decode is a
    malformed payload; and an exception of another class from the request,
    a JSON body that is not an object, a response field that is not a text
    and a decoder that raises another exception are unexpected errors.
    Each is returned to the caller as the message, with no result. *)
Theorem failure_taxonomy (json_loads : Decoder) (server : Server)
    (job_title model : str) (w : World) :
  let r := generate_job_requirements json_loads server job_title model w in
  let req := request job_title model in
  let connection e :=
    u "Error connecting to Ollama: " ++ e ++ nl
    ++ u "Make sure Ollama is running and the model is loaded." in
  let unexpected e := u "Unexpected error: " ++ e in
  snd r = posted w req /\
  (forall msg, snd (fst r) = Some msg ->
     In (classes msg)
        [[true; false; false; false]; [false; true; false; false];
         [false; false; true; false]; [false; false; false; true]]) /\
  (forall e w', try_body json_loads server job_title model w = (inl e, w') ->
     fst r = (VNone,
              Some (match e with
                    | RequestException m => connection m
                    | JSONDecodeError m | OtherException m => unexpected m
                    end))) /\
  (forall e, server (posts w) req = inl (RequestException e) ->
     fst r = (VNone, Some (connection e))) /\
  (forall resp, server (posts w) req = inr resp ->
     (400 <= status_code resp < 600)%Z ->
     exists e, fst r = (VNone, Some (connection e))) /\
  (forall resp e, server (posts w) req = inr resp ->
     raise_for_status resp = inr tt ->
     json_loads (text resp) = inl (JSONDecodeError e) ->
     fst r = (VNone, Some (connection e))) /\
  (forall t, model_output json_loads server w job_title model t ->
     json_match t = None ->
     fst r = (VNone,
              Some (u "Error: Could not find JSON in response. Raw response:"
                    ++ nl ++ t))) /\
  (forall t cand e, model_output json_loads server w job_title model t ->
     json_match t = Some cand ->
     json_loads (strip (replace backticks [] cand)) = inl (JSONDecodeError e) ->
     fst r = (VNone,
              Some (u "Error: Model returned invalid JSON. Details:" ++ nl
                    ++ e ++ nl ++ u "Raw response:" ++ nl ++ t))) /\
  (forall e, server (posts w) req = inl e ->
     (forall m, e <> RequestException m) ->
     fst r = (VNone, Some (unexpected (exn_str e)))) /\
  (forall resp body, server (posts w) req = inr resp ->
     raise_for_status resp = inr tt ->
     json_loads (text resp) = inr body ->
     (forall d, body <> VDict d) ->
     fst r = (VNone,
              Some (unexpected (u "'" ++ type_name body
                                ++ u "' object has no attribute 'get'")))) /\
  (forall resp d full, server (posts w) req = inr resp ->
     raise_for_status resp = inr tt ->
     json_loads (text resp) = inr (VDict d) ->
     dict_lookup d (u "response") = Some full ->
     (forall t, full <> VStr t) ->
     fst r = (VNone,
              Some (unexpected (u "expected string or bytes-like object, got '"
                                ++ type_name full ++ u "'")))) /\
  (forall t cand m, model_output json_loads server w job_title model t ->
     json_match t = Some cand ->
     json_loads (strip (replace backticks [] cand)) = inl (OtherException m) ->
     fst r = (VNone, Some (unexpected m))).
Proof.
  intros r req connection unexpected.
  split; [apply generate_world|].
  split.
  { intros msg Hmsg.
    assert (E := generate_ending json_loads server job_title model w).
    fold r in E. destruct E as [e|e|t Ht|t e Ht|t v Ht];
      cbn [fst snd] in Hmsg; try discriminate Hmsg;
      injection Hmsg as <-.
    + rewrite classes_connection. now left.
    + rewrite classes_unexpected. now do 3 right; left.
    + rewrite classes_not_found. now right; left.
    + rewrite classes_invalid. now do 2 right; left. }
  split.
  { intros e w' Hb. unfold r. rewrite generate_try_body, Hb.
    destruct e; reflexivity. }
  split.
  { intros e Hs. unfold r, req, request in *.
    unfold generate_job_requirements, bind, lift, requests_post.
    now rewrite Hs. }
  split.
  { intros resp Hs Hc. unfold r, req, request in *.
    unfold generate_job_requirements, bind, lift, requests_post.
    rewrite Hs. unfold raise_for_status.
    destruct ((400 <=? status_code resp) && (status_code resp <? 500))%Z eqn:E4;
      [eexists; reflexivity|].
    destruct ((500 <=? status_code resp) && (status_code resp <? 600))%Z eqn:E5;
      [eexists; reflexivity|].
    exfalso.
    apply andb_false_iff in E4, E5.
    rewrite Z.leb_gt, Z.ltb_ge in E4, E5. lia. }
  split.
  { intros resp e Hs Hr Hj. unfold r, req, request in *.
    unfold generate_job_requirements, bind, lift, requests_post, response_json.
    now rewrite Hs, Hr, Hj. }
  split.
  { intros t Ht Hm. unfold r. rewrite (generate_model_output Ht).
    unfold extract_json. now rewrite Hm. }
  split.
  { intros t cand e Ht Hm He. unfold r. rewrite (generate_model_output Ht).
    unfold extract_json, parse, clean. now rewrite Hm, He. }
  split.
  { intros e Hs Hne. unfold r, req, request in *.
    unfold generate_job_requirements, bind, lift, requests_post.
    rewrite Hs. destruct e as [m|m|m]; [|reflexivity|reflexivity].
    now destruct (Hne m). }
  split.
  { intros resp body Hs Hr Hj Hne. unfold r, req, request in *.
    unfold generate_job_requirements, bind, lift, requests_post, response_json.
    rewrite Hs, Hr, Hj.
    destruct body; try reflexivity. now destruct (Hne items). }
  split.
  { intros resp d full Hs Hr Hj Hd Hne. unfold r, req, request in *.
    unfold generate_job_requirements, bind, lift, requests_post, response_json.
    rewrite Hs, Hr, Hj. cbn [get_method]. rewrite Hd.
    destruct full; try reflexivity. now destruct (Hne s). }
  intros t cand m Ht Hm He. unfold r. rewrite (generate_model_output Ht).
  unfold extract_json, parse, clean. now rewrite Hm, He.
Qed.



(** ** The pages *)

Arguments Match.prompt : simpl never.
Arguments Report.prompt : simpl never.

(** The request of either page has been made and the reply is in hand. *)
Lemma match_after_post (json_loads : Decoder) (server : Server)
    (r0 : char) (resume : str) (j0 : char) (job : str) (w : World) :
  Match.analyze json_loads server (Some (r0 :: resume)) (Some (j0 :: job)) w
  = match server (posts w) (Match.request (r0 :: resume) (j0 :: job)) with
    | inl e =>
        (inl e,
         {| posts := posts w ++ [Match.request (r0 :: resume) (j0 :: job)];
            screen := screen w
              ++ [st_spinner (u "Generating response using Llama3...")];
            files := files w |})
    | inr response =>
        (if (status_code response =? 200)%Z
         then
           bind (lift (response_json json_loads response)) (fun body =>
           bind (lift (subscript body (u "response"))) (fun result =>
           bind (show (st_success ([9989%N] ++ u " Extraction complete!")))
             (fun _ =>
           bind (show (st_text_area ([129504%N] ++ u " LLaMA 3 Output")
                         result 400)) (fun _ =>
           bind (open_w Match.output_file) (fun _ =>
           bind (write Match.output_file result) (fun _ =>
           show (st_download_button ([128190%N] ++ u " Download Result")
                   result Match.output_file)))))))
         else
           show (st_error ([10060%N] ++
             u " Error generating response. Is Ollama running with the LLa" ++
             u "MA 3 model?")))
          {| posts := posts w ++ [Match.request (r0 :: resume) (j0 :: job)];
             screen := screen w
               ++ [st_spinner (u "Generating response using Llama3...")];
             files := files w |}
    end.
Proof.
  unfold Match.analyze, Match.request. cbn [read_file truthy negb orb].
  unfold bind at 1. rewrite show_shown by texts_ok. cbn [posts screen files].
  unfold bind at 1. unfold requests_post at 1. cbn [posts screen files].
  destruct (server _ _) as [e|response]; reflexivity.
Qed.

Lemma report_after_post (json_loads : Decoder) (server : Server)
    (r0 : char) (resume : str) (j0 : char) (job : str)
    (matching : option str) (w : World) :
  Report.analyze json_loads server (Some (r0 :: resume)) (Some (j0 :: job))
    matching w
  = let req := Report.request (read_file matching) (r0 :: resume) (j0 :: job) in
    match server (posts w) req with
    | inl e =>
        (inl e,
         {| posts := posts w ++ [req];
            screen := screen w
              ++ [st_spinner (u "Generating response using LLaMA 3...")];
            files := files w |})
    | inr response =>
        (if (status_code response =? 200)%Z
         then
           bind (lift (response_json json_loads response)) (fun body =>
           bind (lift (get_method body (u "response") (VStr []))) (fun field =>
           bind (lift (strip_method field)) (fun result =>
           bind (show (st_success ([9989%N] ++ u " Extraction complete!")))
             (fun _ =>
           bind (show (st_text_area ([129504%N] ++ u " LLaMA 3 Output (JSON)")
                         result 400)) (fun _ =>
           bind (open_w Report.output_file) (fun _ =>
           bind (write Report.output_file result) (fun _ =>
           show (st_download_button ([128190%N] ++ u " Download Result")
                   result Report.output_file))))))))
         else
           show (st_error ([10060%N] ++
             u " Error generating response. Is Ollama running with the LLa" ++
             u "MA 3 model?")))
          {| posts := posts w ++ [req];
             screen := screen w
               ++ [st_spinner (u "Generating response using LLaMA 3...")];
             files := files w |}
    end.
Proof.
  unfold Report.analyze, Report.request. cbn [read_file truthy negb orb].
  unfold bind at 1. rewrite show_shown by texts_ok. cbn [posts screen files].
  unfold bind at 1. unfold requests_post at 1. cbn [posts screen files].
  cbv zeta. destruct (server _ _) as [e|response]; reflexivity.
Qed.

(** The matching page shows and exports the response text itself. *)
Lemma match_page_raw (json_loads : Decoder) (server : Server)
    (resume job : str) (w : World) (resp : Response) (body : value) (t : str) :
  resume <> [] -> job <> [] ->
  encodable t = true ->
  server (posts w) (Match.request resume job) = inr resp ->
  status_code resp = 200%Z ->
  response_json json_loads resp = inr body ->
  subscript body (u "response") = inr (VStr t) ->
  Match.analyze json_loads server (Some resume) (Some job) w
  = (inr tt,
     {| posts := posts w ++ [Match.request resume job];
        screen := screen w
          ++ [st_spinner (u "Generating response using Llama3...");
              st_success ([9989%N] ++ u " Extraction complete!");
              st_text_area ([129504%N] ++ u " LLaMA 3 Output") (VStr t) 400;
              st_download_button ([128190%N] ++ u " Download Result")
                (VStr t) Match.output_file];
        files := file_set (files w) Match.output_file t |}).
Proof.
  intros Hr Hj He Hs Hc Hb Ht.
  destruct resume as [|r0 resume]; [contradiction|].
  destruct job as [|j0 job]; [contradiction|].
  rewrite match_after_post, Hs, Hc. cbn [Z.eqb Pos.eqb].
  unfold bind at 1. unfold lift at 1. rewrite Hb.
  unfold bind at 1. unfold lift at 1. rewrite Ht.
  unfold bind at 1. rewrite show_shown by texts_ok. cbn [posts screen files].
  unfold bind at 1. rewrite show_shown by texts_ok. cbn [posts screen files].
  rewrite open_write_then by exact He.
  rewrite show_shown by texts_ok. cbn [posts screen files].
  now rewrite <- !app_assoc.
Qed.

(** The report page shows and exports the stripped response text. *)
Lemma report_page_raw (json_loads : Decoder) (server : Server)
    (resume job : str) (matching : option str) (w : World) (resp : Response)
    (body : value) (t : str) :
  resume <> [] -> job <> [] ->
  encodable t = true ->
  server (posts w) (Report.request (read_file matching) resume job) = inr resp ->
  status_code resp = 200%Z ->
  response_json json_loads resp = inr body ->
  get_method body (u "response") (VStr []) = inr (VStr t) ->
  Report.analyze json_loads server (Some resume) (Some job) matching w
  = (inr tt,
     {| posts := posts w ++ [Report.request (read_file matching) resume job];
        screen := screen w
          ++ [st_spinner (u "Generating response using LLaMA 3...");
              st_success ([9989%N] ++ u " Extraction complete!");
              st_text_area ([129504%N] ++ u " LLaMA 3 Output (JSON)")
                (VStr (strip t)) 400;
              st_download_button ([128190%N] ++ u " Download Result")
                (VStr (strip t)) Report.output_file];
        files := file_set (files w) Report.output_file (strip t) |}).
Proof.
  intros Hr Hj He Hs Hc Hb Ht.
  destruct resume as [|r0 resume]; [contradiction|].
  destruct job as [|j0 job]; [contradiction|].
  apply encodable_strip in He.
  rewrite report_after_post. cbv zeta. rewrite Hs, Hc. cbn [Z.eqb Pos.eqb].
  unfold bind at 1. unfold lift at 1. rewrite Hb.
  unfold bind at 1. unfold lift at 1. rewrite Ht.
  unfold bind at 1. unfold lift at 1. cbn [strip_method].
  unfold bind at 1. rewrite show_shown by texts_ok. cbn [posts screen files].
  unfold bind at 1. rewrite show_shown by texts_ok. cbn [posts screen files].
  rewrite open_write_then by exact He.
  rewrite show_shown by texts_ok. cbn [posts screen files].
  now rewrite <- !app_assoc.
Qed.

(** C8 as stated fails: on the matching page what is shown and written does
    not pass through the extraction step.  Two response texts from which
    the extraction step reads the same value leave different files. *)
Lemma pages_parse_counterexample :
  ~ (forall body1 body2 t1 t2 v resume job,
       Json.loads body1 = inr (VDict [(u "response", VStr t1)]) ->
       Json.loads body2 = inr (VDict [(u "response", VStr t2)]) ->
       extract_json Json.loads t1 = inr (v, None) ->
       extract_json Json.loads t2 = inr (v, None) ->
       files (snd (Match.analyze Json.loads (answering body1)
                     (Some resume) (Some job) fresh))
       = files (snd (Match.analyze Json.loads (answering body2)
                       (Some resume) (Some job) fresh))).
Proof.
  intros H.
  specialize (H (j "{'response': '{\'a\': 1}'}")
                (j "{'response': 'Sure: {\'a\': 1}'}")
                (j "{'a': 1}") (j "Sure: {'a': 1}") (VDict [(u "a", VInt 1)])
                (u "cv") (u "job") eq_refl eq_refl eq_refl eq_refl).
  vm_compute in H. discriminate H.
Qed.

(** C8, as the code has it: only [generate_job_requirements] passes the
    response text through the extraction step.  For a response text that
    UTF-8 can encode, one with no code point from U+D800 to U+DFFF, the
    matching page shows in its text area, writes to its file and offers
    for download the response text itself, whatever it is; the report page
    does the same with the response text stripped of surrounding
    whitespace. *)
Theorem pages_show_raw_output (json_loads : Decoder) (server : Server)
    (w : World) :
  (forall resume job resp body t,
     resume <> [] -> job <> [] ->
     (forall c, In c t -> (c < 55296 \/ 57343 < c)%N) ->
     server (posts w) (Match.request resume job) = inr resp ->
     status_code resp = 200%Z ->
     response_json json_loads resp = inr body ->
     subscript body (u "response") = inr (VStr t) ->
     Match.analyze json_loads server (Some resume) (Some job) w
     = (inr tt,
        {| posts := posts w ++ [Match.request resume job];
           screen := screen w
             ++ [st_spinner (u "Generating response using Llama3...");
                 st_success ([9989%N] ++ u " Extraction complete!");
                 st_text_area ([129504%N] ++ u " LLaMA 3 Output") (VStr t) 400;
                 st_download_button ([128190%N] ++ u " Download Result")
                   (VStr t) Match.output_file];
           files := file_set (files w) Match.output_file t |})) /\
  (forall resume job matching resp body t,
     resume <> [] -> job <> [] ->
     (forall c, In c t -> (c < 55296 \/ 57343 < c)%N) ->
     server (posts w) (Report.request (read_file matching) resume job)
     = inr resp ->
     status_code resp = 200%Z ->
     response_json json_loads resp = inr body ->
     get_method body (u "response") (VStr []) = inr (VStr t) ->
     Report.analyze json_loads server (Some resume) (Some job) matching w
     = (inr tt,
        {| posts := posts w
             ++ [Report.request (read_file matching) resume job];
           screen := screen w
             ++ [st_spinner (u "Generating response using LLaMA 3...");
                 st_success ([9989%N] ++ u " Extraction complete!");
                 st_text_area ([129504%N] ++ u " LLaMA 3 Output (JSON)")
                   (VStr (strip t)) 400;
                 st_download_button ([128190%N] ++ u " Download Result")
                   (VStr (strip t)) Report.output_file];
           files := file_set (files w) Report.output_file (strip t) |})) /\
  (forall job_title model t,
     model_output json_loads server w job_title model t ->
     fst (generate_job_requirements json_loads server job_title model w)
     = returned (extract_json json_loads t)).
Proof.
  repeat split.
  - intros. apply match_page_raw with resp body; try assumption.
    now apply encodable_no_surrogate.
  - intros. apply report_page_raw with resp body; try assumption.
    now apply encodable_no_surrogate.
  - intros. now apply generate_model_output.
Qed.

(** A response without any JSON is shown and written as it is. *)
Lemma pages_show_raw_output_witness :
  Match.analyze Json.loads (answering (j "{'response': 'No JSON here.'}"))
    (Some (u "cv")) (Some (u "job")) fresh
  = (inr tt,
     {| posts := [Match.request (u "cv") (u "job")];
        screen :=
          [st_spinner (u "Generating response using Llama3...");
           st_success ([9989%N] ++ u " Extraction complete!");
           st_text_area ([129504%N] ++ u " LLaMA 3 Output")
             (VStr (u "No JSON here.")) 400;
           st_download_button ([128190%N] ++ u " Download Result")
             (VStr (u "No JSON here.")) Match.output_file];
        files := [(Match.output_file, u "No JSON here.")] |}).
Proof.
  apply (proj1 (@pages_show_raw_output Json.loads
                  (answering (j "{'response': 'No JSON here.'}")) fresh)
           (u "cv") (u "job")
           {| status_code := 200; reason := u "OK";
              url := u "http://localhost:11434/api/generate";
              text := j "{'response': 'No JSON here.'}" |}
           (VDict [(u "response", VStr (u "No JSON here."))])).
  - discriminate.
  - discriminate.
  - intros c Hc. left. vm_compute in Hc.
    repeat (destruct Hc as [<-|Hc]; [reflexivity|]). destruct Hc.
  - reflexivity.
  - reflexivity.
  - vm_compute. reflexivity.
  - vm_compute. reflexivity.
Defined.

(** ** The cleanup *)

(** C9: the cleanup leaves no triple backtick anywhere in the candidate and
    deletes backticks only; what is decoded is the cleaned candidate, so a
    candidate with a triple backtick is never decoded as it stands, also
    when the backticks are inside a JSON string; there the value returned
    is that of the altered text. *)
Theorem cleanup_removes_backticks :
  (forall s,
     contains backticks (replace backticks [] s) = false /\
     filter (fun c => negb (N.eqb c tick)) (replace backticks [] s)
     = filter (fun c => negb (N.eqb c tick)) s) /\
  (forall json_loads text cand,
     json_match text = Some cand ->
     extract_json json_loads text
     = parse json_loads (strip (replace backticks [] cand)) text) /\
  (forall cand,
     contains backticks cand = true ->
     contains backticks (clean cand) = false /\ clean cand <> cand) /\
  (let cand := j "{'a': 'x```y'}" in
   json_match cand = Some cand /\
   Json.loads cand = inr (VDict [(u "a", VStr (u "x```y"))]) /\
   clean cand = j "{'a': 'xy'}" /\
   extract_json Json.loads cand = inr (VDict [(u "a", VStr (u "xy"))], None)).
Proof.
  split; [|split; [|split]].
  - intros s. split.
    + apply replace_ticks_none_left.
    + apply replace_ticks_keeps_others.
  - intros json_loads text cand Hm. unfold extract_json. now rewrite Hm.
  - intros cand Hc.
    assert (Hn : contains backticks (clean cand) = false)
      by apply contains_false_strip, replace_ticks_none_left.
    split; [exact Hn|]. intros E. rewrite E in Hn. congruence.
  - vm_compute. repeat split; reflexivity.
Qed.

(** * Further properties of the code *)

(** ** The candidate *)

Lemma startswith_firstn (p s : str) (n : nat) :
  startswith p (firstn n s) = true -> startswith p s = true.
Proof.
  revert s n; induction p as [|c p IH]; intros s n H; [reflexivity|].
  destruct n as [|n]; [discriminate H|].
  destruct s as [|d s]; [discriminate H|].
  cbn [firstn startswith] in *.
  apply andb_true_iff in H as [Hc Hp].
  rewrite Hc. cbn [andb]. now apply IH with n.
Qed.

(** Before its first occurrence a non-empty text does not occur. *)
Lemma find_Some_before (p s : str) (k : nat) :
  p <> [] -> find p s = Some k -> contains p (firstn k s) = false.
Proof.
  intros Hp. revert k; induction s as [|c s IH]; intros k; cbn [find].
  - destruct p; [contradiction|]. discriminate.
  - destruct (startswith p (c :: s)) eqn:E.
    + intros [= <-]. destruct p; [contradiction|reflexivity].
    + destruct (find p s) as [i|]; [|discriminate].
      cbn [option_map]. intros [= <-]. cbn [firstn].
      apply contains_cons_false; [|now apply IH].
      destruct (startswith p (c :: firstn i s)) eqn:E'; [|reflexivity].
      change (c :: firstn i s) with (firstn (S i) (c :: s)) in E'.
      apply startswith_firstn in E'. congruence.
Qed.

Lemma find_char_before (c : char) (s : str) (i : nat) :
  find [c] s = Some i -> ~ In c (firstn i s).
Proof.
  revert i; induction s as [|d s IH]; intros i; cbn [find startswith];
    [discriminate|].
  destruct (N.eqb_spec c d) as [->|Hc]; cbn [andb].
  - intros [= <-]. intros [].
  - destruct (find [c] s) as [k|]; [|discriminate].
    cbn [option_map]. intros [= <-]. cbn [firstn]. intros [H|H].
    + now apply Hc.
    + now apply (IH k).
Qed.

Lemma rfind_None_not_In (c : char) (s : str) :
  rfind [c] s = None -> ~ In c s.
Proof.
  induction s as [|d s IH]; cbn [rfind startswith]; [intros _ []|].
  destruct (rfind [c] s); [discriminate|].
  destruct (N.eqb_spec c d) as [->|Hc]; cbn [andb]; [discriminate|].
  intros _ [H|H]; [now apply Hc|now apply IH].
Qed.

Lemma rfind_char_split_last (c : char) (s : str) (i : nat) :
  rfind [c] s = Some i ->
  exists a t, s = a ++ c :: t /\ firstn (S i) s = a ++ [c] /\ ~ In c t.
Proof.
  revert i; induction s as [|d s IH]; intros i; cbn [rfind startswith];
    [discriminate|].
  destruct (rfind [c] s) as [k|] eqn:E.
  - intros [= <-]. destruct (IH k eq_refl) as (a & t & Hs & Hf & Ht).
    exists (d :: a), t. repeat split.
    + cbn [app]. now f_equal.
    + change (firstn (S (S k)) (d :: s)) with (d :: firstn (S k) s).
      cbn [app]. now f_equal.
    + exact Ht.
  - destruct (N.eqb_spec c d) as [->|]; cbn [andb]; [|discriminate].
    intros [= <-]. exists [], s. repeat split.
    now apply rfind_None_not_In.
Qed.

(** X1: without a fenced block the candidate is the widest brace span of
    the text: it starts at the first opening brace and ends at the last
    closing brace, so no opening brace comes before it and no closing brace
    after it.  Two JSON objects in a text are taken as one candidate. *)
Theorem fallback_widest_span (text g : str) :
  Re.search fenced_pattern text = None ->
  json_match text = Some g ->
  exists a b c,
    text = a ++ g ++ c /\ g = lbrace :: b ++ [rbrace] /\
    ~ In lbrace a /\ ~ In rbrace c.
Proof.
  intros Hf Hm. rewrite (json_match_brace _ Hf) in Hm.
  rewrite search_brace_find in Hm.
  destruct (find [lbrace] text) as [i|] eqn:Fo; [|discriminate].
  cbv zeta in Hm.
  destruct (rfind [rbrace] (skipn (S i) text)) as [k|] eqn:Fc; [|discriminate].
  assert (Hg : g = lbrace :: firstn (S k) (skipn (S i) text)) by congruence.
  clear Hm. subst g.
  assert (Hbefore := find_char_before _ _ Fo).
  apply find_Some in Fo. cbn [length] in Fo. rewrite Nat.add_1_r in Fo.
  destruct (rfind_char_split_last _ _ Fc) as (b & c & Hr & Hfi & Hlast).
  exists (firstn i text), b, c. repeat split.
  - rewrite Hfi. rewrite Fo at 1. rewrite Hr. cbn [app].
    now rewrite <- app_assoc.
  - now rewrite Hfi.
  - exact Hbefore.
  - exact Hlast.
Qed.

Lemma fallback_widest_span_witness :
  exists a b c,
    j "Both: {'a': 1} and {'b': 2}." = a ++ j "{'a': 1} and {'b': 2}" ++ c /\
    j "{'a': 1} and {'b': 2}" = lbrace :: b ++ [rbrace] /\
    ~ In lbrace a /\ ~ In rbrace c.
Proof.
  apply (@fallback_widest_span (j "Both: {'a': 1} and {'b': 2}.")
           (j "{'a': 1} and {'b': 2}")).
  - vm_compute. reflexivity.
  - vm_compute. reflexivity.
Defined.

(** X2: what the fenced search captures lies between the first opening
    fence of the text and the first closing fence after it: the capture
    holds no closing fence. *)
Theorem fenced_capture_delimited (text g : str) :
  Re.search fenced_pattern text = Some g ->
  exists a c,
    text = a ++ fence_open ++ g ++ fence_close ++ c /\
    find fence_open text = Some (length a) /\
    contains fence_close g = false.
Proof.
  rewrite search_fenced_find.
  destruct (find fence_open text) as [i|] eqn:Fo; [|discriminate].
  cbv zeta.
  destruct (find fence_close (skipn (i + length fence_open) text))
    as [k|] eqn:Fc; [|discriminate].
  intros E.
  assert (Hg : g = firstn k (skipn (i + length fence_open) text))
    by congruence.
  clear E. subst g.
  assert (Hi : i <= length text) by now apply find_bound with fence_open.
  assert (Hno := @find_Some_before fence_close _ k ltac:(discriminate) Fc).
  assert (Fo' := Fo). apply find_Some in Fo'. apply find_Some in Fc.
  exists (firstn i text),
    (skipn (k + length fence_close) (skipn (i + length fence_open) text)).
  repeat split.
  - rewrite <- Fc. exact Fo'.
  - f_equal. symmetry. now apply firstn_length_le.
  - exact Hno.
Qed.

Lemma fenced_capture_delimited_witness :
  exists a c,
    u "Fine." ++ fence_open ++ u "[1]" ++ fence_close ++ u " or " ++ fence_open
      ++ u "[2]" ++ fence_close
    = a ++ fence_open ++ u "[1]" ++ fence_close ++ c /\
    find fence_open
      (u "Fine." ++ fence_open ++ u "[1]" ++ fence_close ++ u " or "
       ++ fence_open ++ u "[2]" ++ fence_close)
    = Some (length a) /\
    contains fence_close (u "[1]") = false.
Proof.
  apply (@fenced_capture_delimited
           (u "Fine." ++ fence_open ++ u "[1]" ++ fence_close ++ u " or "
            ++ fence_open ++ u "[2]" ++ fence_close) (u "[1]")).
  vm_compute. reflexivity.
Defined.

Lemma strip_idem (s : str) : strip (strip s) = strip s.
Proof.
  unfold strip at 1. destruct (strip_ends s) as [Hl Hr]. now rewrite Hl, Hr.
Qed.

(** X3: the cleanup of line 110 is idempotent: cleaning a cleaned candidate
    changes nothing. *)
Theorem clean_idempotent (s : str) : clean (clean s) = clean s.
Proof.
  unfold clean at 1.
  rewrite replace_ticks_id.
  - apply strip_idem.
  - apply contains_false_strip, replace_ticks_none_left.
Qed.

(** ** The call: replies that are not the expected one *)

(** X4: a reply whose JSON object has no [response] field is read as the
    empty text: the call returns no result and the not-found message with
    an empty raw response. *)
Theorem missing_response_field (json_loads : Decoder) (server : Server)
    (job_title model : str) (w : World) (resp : Response)
    (d : list (str * value)) :
  server (posts w) (request job_title model) = inr resp ->
  raise_for_status resp = inr tt ->
  response_json json_loads resp = inr (VDict d) ->
  dict_lookup d (u "response") = None ->
  fst (generate_job_requirements json_loads server job_title model w)
  = (VNone, Some (not_found [])).
Proof.
  intros Hs Hr Hj Hd.
  rewrite (@generate_model_output json_loads server job_title model w []).
  - reflexivity.
  - exists resp, (VDict d). repeat split; try assumption.
    cbn [get_method]. now rewrite Hd.
Qed.

Lemma missing_response_field_witness :
  fst (generate_job_requirements Json.loads
         (answering (j "{'model': 'llama3', 'done': true}"))
         (u "Data Scientist") (u "llama3:latest") fresh)
  = (VNone, Some (not_found [])).
Proof.
  apply (@missing_response_field Json.loads
           (answering (j "{'model': 'llama3', 'done': true}"))
           (u "Data Scientist") (u "llama3:latest") fresh
           {| status_code := 200; reason := u "OK";
              url := u "http://localhost:11434/api/generate";
              text := j "{'model': 'llama3', 'done': true}" |}
           [(u "model", VStr (u "llama3")); (u "done", VBool true)]).
  - reflexivity.
  - reflexivity.
  - vm_compute. reflexivity.
  - vm_compute. reflexivity.
Defined.

(** X5: only a 4xx or 5xx status stops the call.  With any other status,
    200 or not, the body is read and the response text extracted as
    usual. *)
Theorem status_outside_errors_ignored (json_loads : Decoder) (server : Server)
    (job_title model : str) (w : World) (resp : Response) (body : value)
    (t : str) :
  server (posts w) (request job_title model) = inr resp ->
  ~ (400 <= status_code resp < 600)%Z ->
  response_json json_loads resp = inr body ->
  get_method body (u "response") (VStr []) = inr (VStr t) ->
  fst (generate_job_requirements json_loads server job_title model w)
  = returned (extract_json json_loads t).
Proof.
  intros Hs Hc Hj Hg. apply generate_model_output.
  exists resp, body. repeat split; try assumption.
  unfold raise_for_status.
  destruct ((400 <=? status_code resp) && (status_code resp <? 500))%Z eqn:E4.
  { apply andb_true_iff in E4. rewrite Z.leb_le, Z.ltb_lt in E4. lia. }
  destruct ((500 <=? status_code resp) && (status_code resp <? 600))%Z eqn:E5.
  { apply andb_true_iff in E5. rewrite Z.leb_le, Z.ltb_lt in E5. lia. }
  reflexivity.
Qed.

Lemma status_outside_errors_ignored_witness :
  fst (generate_job_requirements Json.loads
         (fun _ _ => inr {| status_code := 301; reason := u "Moved Permanently";
                            url := u "http://localhost:11434/api/generate";
                            text := j "{'response': '{}'}" |})
         (u "Data Scientist") (u "llama3:latest") fresh)
  = returned (extract_json Json.loads (u "{}")).
Proof.
  apply (@status_outside_errors_ignored Json.loads
           (fun _ _ => inr {| status_code := 301;
                              reason := u "Moved Permanently";
                              url := u "http://localhost:11434/api/generate";
                              text := j "{'response': '{}'}" |})
           (u "Data Scientist") (u "llama3:latest") fresh
           {| status_code := 301; reason := u "Moved Permanently";
              url := u "http://localhost:11434/api/generate";
              text := j "{'response': '{}'}" |}
           (VDict [(u "response", VStr (u "{}"))])).
  - reflexivity.
  - cbn [status_code]. lia.
  - vm_compute. reflexivity.
  - vm_compute. reflexivity.
Defined.

(** X6: a reply whose JSON body is not an object, or whose [response] field
    is not a string, ends the call in the catch-all handler: no result and
    a message of the unexpected class only. *)
Theorem wrong_shape_is_unexpected (json_loads : Decoder) (server : Server)
    (job_title model : str) (w : World) (resp : Response) (body : value) :
  server (posts w) (request job_title model) = inr resp ->
  raise_for_status resp = inr tt ->
  response_json json_loads resp = inr body ->
  (forall d, body <> VDict d) \/
  (exists x, get_method body (u "response") (VStr []) = inr x /\
             forall t, x <> VStr t) ->
  exists msg,
    fst (generate_job_requirements json_loads server job_title model w)
    = (VNone, Some msg) /\
    classes msg = [false; false; false; true].
Proof.
  intros Hs Hr Hj H.
  unfold generate_job_requirements, bind, lift, requests_post.
  unfold request in Hs. rewrite Hs, Hr, Hj.
  destruct H as [H|(x & Hx & Hn)].
  - destruct body; try (now destruct (H items));
      (eexists; split; [reflexivity|apply classes_unexpected]).
  - rewrite Hx.
    destruct x; try (now destruct (Hn s));
      (eexists; split; [reflexivity|apply classes_unexpected]).
Qed.

Lemma wrong_shape_is_unexpected_witness :
  exists msg,
    fst (generate_job_requirements Json.loads
           (answering (j "{'response': 42}"))
           (u "Data Scientist") (u "llama3:latest") fresh)
    = (VNone, Some msg) /\
    classes msg = [false; false; false; true].
Proof.
  apply (@wrong_shape_is_unexpected Json.loads
           (answering (j "{'response': 42}"))
           (u "Data Scientist") (u "llama3:latest") fresh
           {| status_code := 200; reason := u "OK";
              url := u "http://localhost:11434/api/generate";
              text := j "{'response': 42}" |}
           (VDict [(u "response", VInt 42)])).
  - reflexivity.
  - reflexivity.
  - vm_compute. reflexivity.
  - right. exists (VInt 42). split; [reflexivity|discriminate].
Defined.

(** ** The pages: what they do when something is missing *)

Lemma str_eqb_eq (a b : str) : str_eqb a b = true -> a = b.
Proof.
  revert b; induction a as [|c a IH]; intros [|d b] H; try discriminate H;
    [reflexivity|].
  cbn [str_eqb] in H. apply andb_true_iff in H as [Hc Hr].
  apply N.eqb_eq in Hc. subst d. f_equal. now apply IH.
Qed.

Lemma file_get_set_other (fs : list (str * str)) (name other data : str) :
  other <> name ->
  file_get (file_set fs name data) other = file_get fs other.
Proof.
  intros Hne. induction fs as [|[n d] fs IH]; cbn [file_set file_get].
  - destruct (str_eqb name other) eqn:E; [|reflexivity].
    apply str_eqb_eq in E. congruence.
  - destruct (str_eqb n name) eqn:E; cbn [file_get].
    + apply str_eqb_eq in E. subst n.
      destruct (str_eqb name other) eqn:E'; [|reflexivity].
      apply str_eqb_eq in E'. congruence.
    + now rewrite IH.
Qed.

Lemma truthy_nil (s : str) : s = [] -> truthy s = false.
Proof. now intros ->. Qed.

(** X7: when the resume or the job description is missing or empty, either
    page shows its upload message and does nothing else: no request is
    made and no file is written.  The report page asks the same whether or
    not a matching file was uploaded. *)
Theorem pages_need_both_files (json_loads : Decoder) (server : Server)
    (w : World) :
  (forall resume_file job_file,
     read_file resume_file = [] \/ read_file job_file = [] ->
     Match.analyze json_loads server resume_file job_file w
     = (inr tt,
        {| posts := posts w;
           screen := screen w ++ [st_error (u "Please upload both files.")];
           files := files w |})) /\
  (forall resume_file job_description llama_output,
     read_file resume_file = [] \/ read_file job_description = [] ->
     Report.analyze json_loads server resume_file job_description
       llama_output w
     = (inr tt,
        {| posts := posts w;
           screen := screen w
             ++ [st_error
                   (u "Please upload both the resume and job description files.")];
           files := files w |})).
Proof.
  split.
  - intros resume_file job_file H. unfold Match.analyze.
    assert (E : negb (truthy (read_file resume_file))
                || negb (truthy (read_file job_file)) = true).
    { destruct H as [H|H]; rewrite (truthy_nil H); cbn [negb];
        [reflexivity|apply orb_true_r]. }
    now rewrite E.
  - intros resume_file job_description llama_output H. unfold Report.analyze.
    assert (E : negb (truthy (read_file resume_file))
                || negb (truthy (read_file job_description)) = true).
    { destruct H as [H|H]; rewrite (truthy_nil H); cbn [negb];
        [reflexivity|apply orb_true_r]. }
    now rewrite E.
Qed.

(** An uploaded but empty job description. *)
Lemma pages_need_both_files_witness :
  Match.analyze Json.loads (answering (j "{'response': 'x'}"))
    (Some (u "cv")) (Some []) fresh
  = (inr tt,
     {| posts := [];
        screen := [st_error (u "Please upload both files.")];
        files := [] |}).
Proof.
  apply (proj1 (@pages_need_both_files Json.loads
                  (answering (j "{'response': 'x'}")) fresh)
           (Some (u "cv")) (Some [])).
  right. reflexivity.
Defined.

(** X8: either page takes any status other than 200 as a failure: it shows
    its error message, never reads the body and writes no file. *)
Theorem pages_reject_other_status (json_loads : Decoder) (server : Server)
    (w : World) (resume job : str) (resp : Response) :
  resume <> [] -> job <> [] ->
  status_code resp <> 200%Z ->
  (server (posts w) (Match.request resume job) = inr resp ->
   Match.analyze json_loads server (Some resume) (Some job) w
   = (inr tt,
      {| posts := posts w ++ [Match.request resume job];
         screen := screen w
           ++ [st_spinner (u "Generating response using Llama3...");
               st_error ([10060%N] ++
                 u " Error generating response. Is Ollama running with the LLa"
                 ++ u "MA 3 model?")];
         files := files w |})) /\
  (forall matching,
     server (posts w) (Report.request (read_file matching) resume job)
     = inr resp ->
     Report.analyze json_loads server (Some resume) (Some job) matching w
     = (inr tt,
        {| posts := posts w
             ++ [Report.request (read_file matching) resume job];
           screen := screen w
             ++ [st_spinner (u "Generating response using LLaMA 3...");
                 st_error ([10060%N] ++
                   u " Error generating response. Is Ollama running with the LLa"
                   ++ u "MA 3 model?")];
           files := files w |})).
Proof.
  intros Hr Hj Hc.
  destruct resume as [|r0 resume]; [contradiction|].
  destruct job as [|j0 job]; [contradiction|].
  apply Z.eqb_neq in Hc. split.
  - intros Hs. rewrite match_after_post, Hs, Hc.
    rewrite show_shown by texts_ok.
    cbn [posts screen files]. now rewrite <- app_assoc.
  - intros matching Hs. rewrite report_after_post. cbv zeta.
    rewrite Hs, Hc.
    rewrite show_shown by texts_ok.
    cbn [posts screen files]. now rewrite <- app_assoc.
Qed.

(** A 201 reply on the matching page. *)
Lemma pages_reject_other_status_witness :
  Match.analyze Json.loads
    (fun _ _ => inr {| status_code := 201; reason := u "Created";
                       url := u "http://localhost:11434/api/generate";
                       text := j "{'response': '[]'}" |})
    (Some (u "cv")) (Some (u "job")) fresh
  = (inr tt,
     {| posts := [] ++ [Match.request (u "cv") (u "job")];
        screen := []
          ++ [st_spinner (u "Generating response using Llama3...");
              st_error ([10060%N] ++
                u " Error generating response. Is Ollama running with the LLa"
                ++ u "MA 3 model?")];
        files := [] |}).
Proof.
  apply (proj1 (@pages_reject_other_status Json.loads
                  (fun _ _ => inr {| status_code := 201; reason := u "Created";
                                     url := u "http://localhost:11434/api/generate";
                                     text := j "{'response': '[]'}" |})
                  fresh (u "cv") (u "job")
                  {| status_code := 201; reason := u "Created";
                     url := u "http://localhost:11434/api/generate";
                     text := j "{'response': '[]'}" |}
                  ltac:(discriminate) ltac:(discriminate)
                  ltac:(discriminate))).
  reflexivity.
Defined.

(** X9: the pages have no handler around the request: an exception raised
    by [requests.post] leaves either page as it is, after the spinner and
    with no file written. *)
Theorem pages_propagate_post_error (json_loads : Decoder) (server : Server)
    (w : World) (resume job : str) (e : exn) :
  resume <> [] -> job <> [] ->
  (server (posts w) (Match.request resume job) = inl e ->
   Match.analyze json_loads server (Some resume) (Some job) w
   = (inl e,
      {| posts := posts w ++ [Match.request resume job];
         screen := screen w
           ++ [st_spinner (u "Generating response using Llama3...")];
         files := files w |})) /\
  (forall matching,
     server (posts w) (Report.request (read_file matching) resume job)
     = inl e ->
     Report.analyze json_loads server (Some resume) (Some job) matching w
     = (inl e,
        {| posts := posts w
             ++ [Report.request (read_file matching) resume job];
           screen := screen w
             ++ [st_spinner (u "Generating response using LLaMA 3...")];
           files := files w |})).
Proof.
  intros Hr Hj.
  destruct resume as [|r0 resume]; [contradiction|].
  destruct job as [|j0 job]; [contradiction|].
  split.
  - intros Hs. now rewrite match_after_post, Hs.
  - intros matching Hs. rewrite report_after_post. cbv zeta. now rewrite Hs.
Qed.

Lemma pages_propagate_post_error_witness :
  Match.analyze Json.loads
    (fun _ _ => inl (RequestException (u "Connection refused")))
    (Some (u "cv")) (Some (u "job")) fresh
  = (inl (RequestException (u "Connection refused")),
     {| posts := [] ++ [Match.request (u "cv") (u "job")];
        screen := []
          ++ [st_spinner (u "Generating response using Llama3...")];
        files := [] |}).
Proof.
  apply (proj1 (@pages_propagate_post_error Json.loads
                  (fun _ _ => inl (RequestException (u "Connection refused")))
                  fresh (u "cv") (u "job")
                  (RequestException (u "Connection refused"))
                  ltac:(discriminate) ltac:(discriminate))).
  reflexivity.
Defined.

(** X10: a 200 reply whose JSON object has no [response] field.  The
    matching page subscripts the object: it raises [KeyError] and shows and
    writes nothing more.  The report page reads the field with a default:
    it reports success, shows an empty text and writes an empty file. *)
Theorem pages_missing_response_field (json_loads : Decoder) (server : Server)
    (w : World) (resume job : str) (resp : Response)
    (d : list (str * value)) :
  resume <> [] -> job <> [] ->
  status_code resp = 200%Z ->
  response_json json_loads resp = inr (VDict d) ->
  dict_lookup d (u "response") = None ->
  (server (posts w) (Match.request resume job) = inr resp ->
   Match.analyze json_loads server (Some resume) (Some job) w
   = (inl (OtherException (u "'response'")),
      {| posts := posts w ++ [Match.request resume job];
         screen := screen w
           ++ [st_spinner (u "Generating response using Llama3...")];
         files := files w |})) /\
  (forall matching,
     server (posts w) (Report.request (read_file matching) resume job)
     = inr resp ->
     Report.analyze json_loads server (Some resume) (Some job) matching w
     = (inr tt,
        {| posts := posts w
             ++ [Report.request (read_file matching) resume job];
           screen := screen w
             ++ [st_spinner (u "Generating response using LLaMA 3...");
                 st_success ([9989%N] ++ u " Extraction complete!");
                 st_text_area ([129504%N] ++ u " LLaMA 3 Output (JSON)")
                   (VStr []) 400;
                 st_download_button ([128190%N] ++ u " Download Result")
                   (VStr []) Report.output_file];
           files := file_set (files w) Report.output_file [] |})).
Proof.
  intros Hr Hj Hc Hb Hd. split.
  - intros Hs.
    destruct resume as [|r0 resume]; [contradiction|].
    destruct job as [|j0 job]; [contradiction|].
    rewrite match_after_post, Hs, Hc. cbn [Z.eqb Pos.eqb].
    unfold bind at 1. unfold lift at 1. rewrite Hb.
    unfold bind at 1. unfold lift at 1. cbn [subscript]. now rewrite Hd.
  - intros matching Hs.
    apply report_page_raw with (resp := resp) (body := VDict d) (t := []);
      try assumption; [reflexivity|].
    cbn [get_method]. now rewrite Hd.
Qed.

Lemma pages_missing_response_field_witness :
  Match.analyze Json.loads (answering (j "{'done': true}"))
    (Some (u "cv")) (Some (u "job")) fresh
  = (inl (OtherException (u "'response'")),
     {| posts := [] ++ [Match.request (u "cv") (u "job")];
        screen := []
          ++ [st_spinner (u "Generating response using Llama3...")];
        files := [] |}).
Proof.
  apply (proj1 (@pages_missing_response_field Json.loads
                  (answering (j "{'done': true}")) fresh (u "cv") (u "job")
                  {| status_code := 200; reason := u "OK";
                     url := u "http://localhost:11434/api/generate";
                     text := j "{'done': true}" |}
                  [(u "done", VBool true)]
                  ltac:(discriminate) ltac:(discriminate) eq_refl
                  ltac:(vm_compute; reflexivity)
                  ltac:(vm_compute; reflexivity))).
  reflexivity.
Defined.

(** X11: a run of the matching page on a reply with status 200 and a
    response text that UTF-8 can encode replaces whatever
    [llama_output.txt] held by the response text, which can be read back,
    and leaves every other file as it was. *)
Theorem match_export_overwrites (json_loads : Decoder) (server : Server)
    (resume job : str) (w : World) (resp : Response) (body : value) (t : str) :
  resume <> [] -> job <> [] ->
  server (posts w) (Match.request resume job) = inr resp ->
  status_code resp = 200%Z ->
  response_json json_loads resp = inr body ->
  subscript body (u "response") = inr (VStr t) ->
  (forall c, In c t -> (c < 55296 \/ 57343 < c)%N) ->
  let run := Match.analyze json_loads server (Some resume) (Some job) w in
  fst run = inr tt /\
  file_get (files (snd run)) Match.output_file = Some t /\
  forall name, name <> Match.output_file ->
               file_get (files (snd run)) name = file_get (files w) name.
Proof.
  intros Hr Hj Hs Hc Hb Ht He run. unfold run.
  rewrite (@match_page_raw json_loads server resume job w resp body t);
    try assumption; [|now apply encodable_no_surrogate].
  cbn [fst snd files]. split; [reflexivity|]. split.
  - apply file_get_set.
  - intros name Hn. now apply file_get_set_other.
Qed.

Lemma match_export_overwrites_witness :
  let w := {| posts := []; screen := [];
              files := [(u "llama_output.txt", u "old result");
                        (u "notes.txt", u "keep")] |} in
  let run := Match.analyze Json.loads
               (answering (j "{'response': 'new result'}"))
               (Some (u "cv")) (Some (u "job")) w in
  fst run = inr tt /\
  file_get (files (snd run)) Match.output_file = Some (u "new result") /\
  forall name, name <> Match.output_file ->
               file_get (files (snd run)) name = file_get (files w) name.
Proof.
  intros w.
  apply (@match_export_overwrites Json.loads
           (answering (j "{'response': 'new result'}"))
           (u "cv") (u "job") w
           {| status_code := 200; reason := u "OK";
              url := u "http://localhost:11434/api/generate";
              text := j "{'response': 'new result'}" |}
           (VDict [(u "response", VStr (u "new result"))])).
  - discriminate.
  - discriminate.
  - reflexivity.
  - reflexivity.
  - vm_compute. reflexivity.
  - vm_compute. reflexivity.
  - intros c Hc. left. vm_compute in Hc.
    repeat (destruct Hc as [<-|Hc]; [reflexivity|]). destruct Hc.
Defined.

(** ** The extraction agent of the resume page *)

Import ResumeParser.


Lemma initialize_agent_after_try (svc : Service) (l : list svc_call) :
  initialize_agent svc l
  = match answer_get svc l agent_label with
    | inl (ApiError code) =>
        if (code =? 404)%Z
        then create_step svc (l ++ [GetAgent agent_label])
        else (inl (ApiError code), l ++ [GetAgent agent_label])
    | inl (OtherError m) => (inl (OtherError m), l ++ [GetAgent agent_label])
    | inr None => create_step svc (l ++ [GetAgent agent_label])
    | inr (Some a) =>
        let l1 := l ++ [GetAgent agent_label] in
        let l2 := l1 ++ [DeleteAgent (agent_id a)] in
        match answer_delete svc l1 (agent_id a) with
        | inl (ApiError code) =>
            if (code =? 404)%Z then create_step svc l2
            else (inl (ApiError code), l2)
        | inl (OtherError m) => (inl (OtherError m), l2)
        | inr _ => create_step svc l2
        end
    end.
Proof.
  unfold initialize_agent, sbind, stry, get_agent, delete_agent, create_agent,
    set_data_schema, sret, sraise, create_step.
  destruct (answer_get svc l agent_label) as [[code|m]|[a|]]; cbv zeta.
  - destruct (code =? 404)%Z; [|reflexivity].
    destruct (answer_create svc _ _ _); [reflexivity|].
    destruct (answer_validate svc _ _); reflexivity.
  - reflexivity.
  - destruct (answer_delete svc _ _) as [[code|m]|[]].
    + destruct (code =? 404)%Z; [|reflexivity].
      destruct (answer_create svc _ _ _); [reflexivity|].
      destruct (answer_validate svc _ _); reflexivity.
    + reflexivity.
    + destruct (answer_create svc _ _ _); [reflexivity|].
      destruct (answer_validate svc _ _); reflexivity.
  - destruct (answer_create svc _ _ _); [reflexivity|].
    destruct (answer_validate svc _ _); reflexivity.
Qed.

(** X12: a 404 from the lookup, or from the deletion of the agent the
    lookup found, is swallowed: the agent is created all the same. *)
Theorem initialize_agent_swallows_404 (svc : Service) (l : list svc_call) :
  (answer_get svc l agent_label = inl (ApiError 404) ->
   initialize_agent svc l = create_step svc (l ++ [GetAgent agent_label])) /\
  (forall a,
     answer_get svc l agent_label = inr (Some a) ->
     answer_delete svc (l ++ [GetAgent agent_label]) (agent_id a)
     = inl (ApiError 404) ->
     initialize_agent svc l
     = create_step svc
         ((l ++ [GetAgent agent_label]) ++ [DeleteAgent (agent_id a)])).
Proof.
  split.
  - intros Hg. now rewrite initialize_agent_after_try, Hg.
  - intros a Hg Hd. rewrite initialize_agent_after_try, Hg. cbv zeta.
    now rewrite Hd.
Qed.

Lemma initialize_agent_swallows_404_witness :
  initialize_agent (simple_service [] (u "agent-1")) []
  = create_step (simple_service [] (u "agent-1")) ([] ++ [GetAgent agent_label]).
Proof.
  apply (proj1 (initialize_agent_swallows_404
                  (simple_service [] (u "agent-1")) [])).
  reflexivity.
Defined.

(** X13: any other failure of the lookup or of the deletion, an [ApiError]
    with another status or another exception, leaves [initialize_agent] as
    it is, and no agent is created. *)
Theorem initialize_agent_propagates (svc : Service) (l : list svc_call)
    (e : svc_exn) :
  e <> ApiError 404 ->
  (answer_get svc l agent_label = inl e ->
   initialize_agent svc l = (inl e, l ++ [GetAgent agent_label])) /\
  (forall a,
     answer_get svc l agent_label = inr (Some a) ->
     answer_delete svc (l ++ [GetAgent agent_label]) (agent_id a) = inl e ->
     initialize_agent svc l
     = (inl e, (l ++ [GetAgent agent_label]) ++ [DeleteAgent (agent_id a)])).
Proof.
  intros He.
  assert (K : forall code, e = ApiError code -> (code =? 404)%Z = false).
  { intros code ->. apply Z.eqb_neq. intros ->. now apply He. }
  split.
  - intros Hg. rewrite initialize_agent_after_try, Hg.
    destruct e as [code|m]; [now rewrite (K code eq_refl)|reflexivity].
  - intros a Hg Hd. rewrite initialize_agent_after_try, Hg. cbv zeta.
    rewrite Hd.
    destruct e as [code|m]; [now rewrite (K code eq_refl)|reflexivity].
Qed.

Lemma initialize_agent_propagates_witness :
  initialize_agent
    {| answer_get := fun _ _ => inl (ApiError 401);
       answer_delete := fun _ _ => inr tt;
       answer_create := fun _ name _ =>
         inr {| agent_id := u "agent-1"; agent_name := name;
                data_schema := Stored name |};
       answer_validate := fun _ s => inr s |} []
  = (inl (ApiError 401), [] ++ [GetAgent agent_label]).
Proof.
  apply (proj1 (@initialize_agent_propagates
                  {| answer_get := fun _ _ => inl (ApiError 401);
                     answer_delete := fun _ _ => inr tt;
                     answer_create := fun _ name _ =>
                       inr {| agent_id := u "agent-1"; agent_name := name;
                              data_schema := Stored name |};
                     answer_validate := fun _ s => inr s |}
                  [] (ApiError 401) ltac:(discriminate))).
  reflexivity.
Defined.

(** The calls of [create_step]. *)
Lemma create_step_calls (svc : Service) (l0 : list svc_call) :
  exists post,
    snd (create_step svc l0) = l0 ++ post /\
    (post = [CreateAgent agent_label Resume] \/
     post = [CreateAgent agent_label Resume; ValidateSchema Resume]) /\
    (forall agent, fst (create_step svc l0) = inr agent ->
       post = [CreateAgent agent_label Resume; ValidateSchema Resume] /\
       exists created validated,
         answer_create svc l0 agent_label Resume = inr created /\
         answer_validate svc (l0 ++ [CreateAgent agent_label Resume]) Resume
         = inr validated /\
         agent = {| agent_id := agent_id created;
                    agent_name := agent_name created;
                    data_schema := validated |}).
Proof.
  unfold create_step. cbv zeta.
  destruct (answer_create svc l0 agent_label Resume) as [e|created].
  - exists [CreateAgent agent_label Resume]. cbn [fst snd].
    split; [reflexivity|]. split; [now left|]. intros agent H. discriminate H.
  - destruct (answer_validate svc _ Resume) as [e|validated] eqn:V;
      exists [CreateAgent agent_label Resume; ValidateSchema Resume];
      cbn [fst snd]; (split; [now rewrite <- app_assoc|]);
      (split; [now right|]); intros agent H; [discriminate H|].
    injection H as <-. split; [reflexivity|].
    exists created, validated. now repeat split.
Qed.

(** After the lookup, and the deletion if there is one, [initialize_agent]
    either has stopped on an exception or goes on to the creation. *)
Lemma initialize_agent_shape (svc : Service) (l : list svc_call) :
  exists pre,
    (pre = [] \/
     exists a, answer_get svc l agent_label = inr (Some a) /\
               pre = [DeleteAgent (agent_id a)]) /\
    (initialize_agent svc l = create_step svc (l ++ GetAgent agent_label :: pre)
     \/ exists e,
          initialize_agent svc l = (inl e, l ++ GetAgent agent_label :: pre)).
Proof.
  rewrite initialize_agent_after_try.
  destruct (answer_get svc l agent_label) as [[code|m]|[a|]] eqn:G.
  - exists []. split; [now left|].
    destruct (code =? 404)%Z; [now left|right; eexists; reflexivity].
  - exists []. split; [now left|]. right; eexists; reflexivity.
  - exists [DeleteAgent (agent_id a)]. split; [right; now exists a|].
    cbv zeta.
    assert (E : (l ++ [GetAgent agent_label]) ++ [DeleteAgent (agent_id a)]
                = l ++ GetAgent agent_label :: [DeleteAgent (agent_id a)])
      by now rewrite <- app_assoc.
    rewrite E.
    destruct (answer_delete svc _ _) as [[code|m]|[]].
    + destruct (code =? 404)%Z; [now left|right; eexists; reflexivity].
    + right; eexists; reflexivity.
    + now left.
  - exists []. split; [now left|]. now left.
Qed.

(** X14: whatever the service answers, [initialize_agent] looks the agent
    up once, deletes at most the agent the lookup returned, creates at most
    once, under the fixed name and with the [Resume] schema, and assigns
    the schema only to an agent it has just created.  When it returns an
    agent, the creation and the assignment were its last two calls and
    both went through: the agent has the identifier and the name of the
    agent the service created, and the schema in the form the service
    gave back for [Resume]. *)
Theorem initialize_agent_calls (svc : Service) (l : list svc_call) :
  let r := initialize_agent svc l in
  exists pre post,
    snd r = l ++ GetAgent agent_label :: pre ++ post /\
    (pre = [] \/
     exists a, answer_get svc l agent_label = inr (Some a) /\
               pre = [DeleteAgent (agent_id a)]) /\
    (post = [] \/
     post = [CreateAgent agent_label Resume] \/
     post = [CreateAgent agent_label Resume; ValidateSchema Resume]) /\
    (forall agent, fst r = inr agent ->
       post = [CreateAgent agent_label Resume; ValidateSchema Resume] /\
       exists created validated,
         answer_create svc (l ++ GetAgent agent_label :: pre) agent_label Resume
         = inr created /\
         answer_validate svc
           (l ++ GetAgent agent_label :: pre ++ [CreateAgent agent_label Resume])
           Resume
         = inr validated /\
         agent = {| agent_id := agent_id created;
                    agent_name := agent_name created;
                    data_schema := validated |}).
Proof.
  intros r. unfold r.
  destruct (initialize_agent_shape svc l) as (pre & Hpre & [E|[e E]]);
    rewrite E.
  - destruct (create_step_calls svc (l ++ GetAgent agent_label :: pre))
      as (post & Hs & Hp & Ha).
    exists pre, post. split; [rewrite Hs; now rewrite <- app_assoc|].
    split; [exact Hpre|]. split; [destruct Hp; auto|].
    intros agent Hag.
    destruct (Ha agent Hag) as (Hpost & created & validated & Hc & Hv & He).
    split; [exact Hpost|]. exists created, validated.
    split; [exact Hc|]. split; [|exact He].
    rewrite <- app_assoc in Hv. exact Hv.
  - exists pre, []. cbn [fst snd]. rewrite app_nil_r.
    split; [reflexivity|]. split; [exact Hpre|]. split; [now left|].
    intros agent H. discriminate H.
Qed.

(** ** One request per run *)

(** What follows the request on a page makes no request. *)
Lemma bind_posts (A B : Type) (m : M A) (k : A -> M B) :
  (forall s, posts (snd (m s)) = posts s) ->
  (forall a s, posts (snd (k a s)) = posts s) ->
  forall s, posts (snd (bind m k s)) = posts s.
Proof.
  intros Hm Hk s. unfold bind. specialize (Hm s).
  destruct (m s) as [[e|a] s']; cbn [snd] in *; [exact Hm|].
  now rewrite Hk.
Qed.

Lemma lift_posts (A : Type) (r : exn + A) (s : World) :
  posts (snd (lift r s)) = posts s.
Proof. reflexivity. Qed.

Lemma show_posts (wd : widget) (s : World) : posts (snd (show wd s)) = posts s.
Proof. unfold show. destruct (List.find _ _); reflexivity. Qed.

Lemma open_w_posts (name : str) (s : World) :
  posts (snd (open_w name s)) = posts s.
Proof. reflexivity. Qed.

Lemma write_posts (name : str) (v : value) (s : World) :
  posts (snd (write name v s)) = posts s.
Proof.
  unfold write. destruct v; try reflexivity.
  destruct (encode_error _); reflexivity.
Qed.

Ltac posts_kept :=
  intros;
  repeat first [ apply lift_posts | apply show_posts | apply open_w_posts
               | apply write_posts | apply bind_posts; intros ].

(** X15: with both files uploaded, a run of either page makes exactly one
    request, however it ends: with the output shown, with the error
    message, or with an exception. *)
Theorem pages_one_request (json_loads : Decoder) (server : Server)
    (w : World) (resume job : str) :
  resume <> [] -> job <> [] ->
  posts (snd (Match.analyze json_loads server (Some resume) (Some job) w))
  = posts w ++ [Match.request resume job] /\
  forall matching,
    posts (snd (Report.analyze json_loads server (Some resume) (Some job)
                  matching w))
    = posts w ++ [Report.request (read_file matching) resume job].
Proof.
  intros Hr Hj.
  destruct resume as [|r0 resume]; [contradiction|].
  destruct job as [|j0 job]; [contradiction|].
  split.
  - rewrite match_after_post.
    destruct (server _ _) as [e|response]; [reflexivity|].
    destruct (status_code response =? 200)%Z.
    + rewrite bind_posts; [reflexivity|posts_kept..].
    + now rewrite show_posts.
  - intros matching. rewrite report_after_post. cbv zeta.
    destruct (server _ _) as [e|response]; [reflexivity|].
    destruct (status_code response =? 200)%Z.
    + rewrite bind_posts; [reflexivity|posts_kept..].
    + now rewrite show_posts.
Qed.

Lemma pages_one_request_witness :
  posts (snd (Match.analyze Json.loads (answering (u "not json"))
                (Some (u "cv")) (Some (u "job")) fresh))
  = posts fresh ++ [Match.request (u "cv") (u "job")] /\
  forall matching,
    posts (snd (Report.analyze Json.loads (answering (u "not json"))
                  (Some (u "cv")) (Some (u "job")) matching fresh))
    = posts fresh ++ [Report.request (read_file matching) (u "cv") (u "job")].
Proof.
  apply (@pages_one_request Json.loads (answering (u "not json")) fresh
           (u "cv") (u "job")); discriminate.
Defined.

(** X16: on a reply with status 200 and a response text that UTF-8 can
    encode, the report page writes the response text without the
    whitespace at its two ends: the response text is the content of the
    file between two runs of whitespace, and the content neither starts
    nor ends with a whitespace character. *)
Theorem report_export_stripped (json_loads : Decoder) (server : Server)
    (resume job : str) (matching : option str) (w : World) (resp : Response)
    (body : value) (t : str) :
  resume <> [] -> job <> [] ->
  server (posts w) (Report.request (read_file matching) resume job) = inr resp ->
  status_code resp = 200%Z ->
  response_json json_loads resp = inr body ->
  get_method body (u "response") (VStr []) = inr (VStr t) ->
  (forall c, In c t -> (c < 55296 \/ 57343 < c)%N) ->
  let run := Report.analyze json_loads server (Some resume) (Some job)
               matching w in
  fst run = inr tt /\
  exists written before after,
    file_get (files (snd run)) Report.output_file = Some written /\
    t = before ++ written ++ after /\
    forallb isspace before = true /\
    forallb isspace after = true /\
    (forall c r, written = c :: r -> isspace c = false) /\
    (forall r c, written = r ++ [c] -> isspace c = false).
Proof.
  intros Hr Hj Hs Hc Hb Ht He run. unfold run.
  rewrite (@report_page_raw json_loads server resume job matching w resp body t);
    try assumption; [|now apply encodable_no_surrogate].
  cbn [fst snd files]. split; [reflexivity|].
  destruct (strip_split t) as (before & after & Hsplit & Wb & Wa).
  exists (strip t), before, after.
  split; [apply file_get_set|]. split; [exact Hsplit|].
  split; [exact Wb|]. split; [exact Wa|]. split.
  - intros c r. apply strip_head.
  - intros r c. apply strip_last.
Qed.

(** Two blanks before an object, a blank and a line feed after it. *)
Lemma report_export_stripped_witness :
  let run := Report.analyze Json.loads
               (answering (j "{'response': '  {} \n'}"))
               (Some (u "cv")) (Some (u "job")) None fresh in
  fst run = inr tt /\
  exists written before after,
    file_get (files (snd run)) Report.output_file = Some written /\
    u "  {} " ++ nl = before ++ written ++ after /\
    forallb isspace before = true /\
    forallb isspace after = true /\
    (forall c r, written = c :: r -> isspace c = false) /\
    (forall r c, written = r ++ [c] -> isspace c = false).
Proof.
  apply (@report_export_stripped Json.loads
           (answering (j "{'response': '  {} \n'}"))
           (u "cv") (u "job") None fresh
           {| status_code := 200; reason := u "OK";
              url := u "http://localhost:11434/api/generate";
              text := j "{'response': '  {} \n'}" |}
           (VDict [(u "response", VStr (u "  {} " ++ nl))])).
  - discriminate.
  - discriminate.
  - reflexivity.
  - reflexivity.
  - vm_compute. reflexivity.
  - vm_compute. reflexivity.
  - intros c Hc. left. vm_compute in Hc.
    repeat (destruct Hc as [<-|Hc]; [reflexivity|]). destruct Hc.
Defined.
